(** * Smoke-test programs of the coral-machine build image

    Three standalone entry points are embedded here, definitions first:

    - [gpu_validation/tests/stdpar_test.cpp]     (module [StdparTest]),
    - [gpu_validation/tests/palabos_minimal.cpp] (module [PalabosMinimal]),
    - [test-project/main.cpp]                    (module [DependencyTest]).

    The C++ [float] is IEEE-754 binary32, taken from the Standard Library's
    executable specification of IEEE arithmetic ([SpecFloat], precision 24,
    exponent bound 128); the C++ [double] is the primitive binary64 float.
    The parallel standard algorithms are modelled as the C++ standard
    specifies them: [std::transform] with an unspecified order of element
    accesses, [std::reduce] as a GENERALIZED_SUM (any permutation, any
    grouping).  Calls into the lattice-Boltzmann library and writes to
    [std::cout] are events of a small interaction type, run against a
    handler that stands for the library or the operating system.

    The properties follow in the modules [Binary32Facts],
    [StdAlgorithmFacts], [StdparTestSpec], [InteractionFacts],
    [PalabosMinimalSpec] and [DependencyTestSpec], and further ones in
    [Binary32Exact], [StdparTestMore], [StdparTestNominal],
    [PalabosMinimalMore] and [DependencyTestMore]. *)

From Stdlib Require Import ZArith Lia PrimFloat SpecFloat.
From stdpp Require Import base list strings.
From Equations Require Import Equations.
From Equations.Prop Require Import Logic.

Open Scope Z_scope.

(** ** IEEE-754 binary32 *)

Module Binary32.

Definition prec : Z := 24.
Definition emax : Z := 128.

(** Smallest exponent of a binary32 mantissa: [emin = -149]. *)
Definition emin : Z := SpecFloat.emin prec emax.

Definition float32 : Type := spec_float.

Definition add : float32 -> float32 -> float32 := SFadd prec emax.
Definition mul : float32 -> float32 -> float32 := SFmul prec emax.
Definition ltb : float32 -> float32 -> bool := SFltb.

(** [a > b] of C++. *)
Definition gtb (a b : float32) : bool := ltb b a.

(** The float nearest to an integer (ties to the even mantissa). *)
Definition of_Z (z : Z) : float32 := binary_normalize prec emax z 0 false.

(** The literals [0.0f], [0.f], [1.0f] and [2.0f]. *)
Definition zero : float32 := S754_zero false.
Definition one : float32 := S754_finite false 8388608 (-23).
Definition two : float32 := S754_finite false 8388608 (-22).

(** The exact value of a finite float as a dyadic pair is not needed
    below; integer-valued floats are read back with [to_Z]. *)
Definition to_Z (x : float32) : option Z :=
  match x with
  | S754_zero _ => Some 0
  | S754_finite s m e =>
      if 0 <=? e then Some (cond_Zopp s (Z.pos m * 2 ^ e))
      else if Z.pos m mod 2 ^ (- e) =? 0
           then Some (cond_Zopp s (Z.pos m / 2 ^ (- e)))
           else None
  | _ => None
  end.

(** Sign classes used for the sanity check [sum > 0.f]: a positive
    float whose exponent is in range, as every operand and result of an
    addition is, or [+inf]; and the same or [+0]. *)
Definition is_pos (x : float32) : bool :=
  match x with
  | S754_finite false _ e => emin <=? e
  | S754_infinity false => true
  | _ => false
  end.

Definition is_nonneg (x : float32) : bool :=
  match x with
  | S754_zero false => true
  | _ => is_pos x
  end.

(** Strictly positive in the IEEE order (any finite exponent). *)
Definition strictly_positive (x : float32) : bool :=
  match x with
  | S754_finite false _ _ | S754_infinity false => true
  | _ => false
  end.

End Binary32.

(** ** The parallel standard algorithms *)

Module StdAlgorithm.

Section Transform.
Context {A : Type}.
Variable unary_op : A -> A.

(** One element access of [std::transform(first, last, first, op)]:
    [buf[i] = op(buf[i])].  Outside the range nothing is touched. *)
Definition transform_at (buf : list A) (i : nat) : list A :=
  match buf !! i with
  | Some x => <[i := unary_op x]> buf
  | None => buf
  end.

(** [std::transform] under an execution policy: the element accesses
    happen in an unspecified order [order]. *)
Definition transform (order : list nat) (buf : list A) : list A :=
  foldl transform_at buf order.

(** An admissible order visits every index of the range exactly once. *)
Definition schedule (order : list nat) (n : nat) : Prop :=
  order ≡ₚ seq 0 n.
End Transform.

Section Reduce.
Context {A : Type}.
Variable binary_op : A -> A -> A.

(** GENERALIZED_NONCOMMUTATIVE_SUM(op, a1, ..., aN) of the C++
    standard: [a1] when [N = 1], otherwise [op] of the sums of a
    proper prefix and the remaining suffix. *)
Inductive noncommutative_sum : list A -> A -> Prop :=
| ncs_one a : noncommutative_sum [a] a
| ncs_split l1 l2 a b :
    noncommutative_sum l1 a ->
    noncommutative_sum l2 b ->
    noncommutative_sum (l1 ++ l2) (binary_op a b).

(** GENERALIZED_SUM: the noncommutative sum of any permutation. *)
Definition generalized_sum (l : list A) (r : A) : Prop :=
  exists l', l' ≡ₚ l /\ noncommutative_sum l' r.

(** [std::reduce(policy, first, last, init)] returns
    GENERALIZED_SUM(op, init, *first, ...).  It only reads the range:
    the buffer after the call is the buffer before it. *)
Definition reduce (buf : list A) (init : A) (buf' : list A) (r : A) : Prop :=
  buf' = buf /\ generalized_sum (init :: buf) r.

(** An explicit grouping, for running a reduction on a given input:
    a leaf takes the next element, a node combines two groups. *)
Inductive grouping : Type :=
| Leaf
| Node (l r : grouping).

Fixpoint run_grouping (g : grouping) (l : list A) : option (A * list A) :=
  match g with
  | Leaf => match l with
            | [] => None
            | a :: rest => Some (a, rest)
            end
  | Node g1 g2 =>
      match run_grouping g1 l with
      | None => None
      | Some (a, rest) =>
          match run_grouping g2 rest with
          | None => None
          | Some (b, rest') => Some (binary_op a b, rest')
          end
      end
  end.

(** Left-to-right accumulation, the grouping of [std::accumulate]. *)
Definition accumulate (l : list A) (init : A) : A :=
  foldl binary_op init l.

(** The grouping of libstdc++'s [std::reduce] on a random-access range:
    as long as four elements are left,
    [init = op(init, op(op(a0, a1), op(a2, a3)))]; the last elements, fewer
    than four, are added one at a time. *)
Fixpoint reduce_by_four (l : list A) (init : A) : A :=
  match l with
  | a0 :: a1 :: a2 :: a3 :: rest =>
      reduce_by_four rest
        (binary_op init (binary_op (binary_op a0 a1) (binary_op a2 a3)))
  | _ => accumulate l init
  end.
End Reduce.

End StdAlgorithm.

(** ** gpu_validation/tests/stdpar_test.cpp *)

Module StdparTest.
Import Binary32 StdAlgorithm.

(** [constexpr std::size_t kSize = 100'000'000;] *)
Definition kSize : N := 100000000.

(** [std::vector<float> data(kSize, 1.0f);] *)
Definition data_init : list float32 := replicate (N.to_nat kSize) one.

(** [[](float x) { return x * 2.0f; }] *)
Definition double_it (x : float32) : float32 := mul x two.

(** [return sum > 0.f ? 0 : 1;] *)
Definition exit_code (sum : float32) : Z :=
  if gtb sum zero then 0 else 1.

(** What one execution of [main] leaves behind. *)
Record run : Type := MkRun {
  data_transformed : list float32;  (* [data] after [std::transform] *)
  data_final : list float32;        (* [data] after [std::reduce] *)
  sum : float32;
  status : Z
}.

(** [main] on an arbitrary initial buffer.  The two sources of
    nondeterminism are the order of the transform's element accesses
    and the permutation and grouping of the reduction. *)
Inductive main_on (data0 : list float32) : run -> Prop :=
| main_intro order data2 s :
    schedule order (length data0) ->
    let data1 := transform double_it order data0 in
    reduce add data1 zero data2 s ->
    main_on data0 (MkRun data1 data2 s (exit_code s)).

Definition main : run -> Prop := main_on data_init.

(** The expected sum, and the value at which left-to-right float
    accumulation of [2.0f] stops growing. *)
Definition expected_sum : float32 := of_Z 200000000.

Definition saturated_sum : float32 := of_Z 33554432.

(** The sum after [k] additions of [2.0f] to [0.0f], one at a time: the
    integer [2 k] as long as [k < 2^24], and [2^25] from then on. *)
Definition partial_sum (k : Z) : float32 :=
  if k <=? 0 then zero
  else if k <? 2 ^ 24
       then S754_finite false (Z.to_pos (k * 2 ^ (23 - Z.log2 k))) (Z.log2 k - 22)
       else saturated_sum.

(** Sizes of the power-of-two blocks of [kSize], largest first:
    100000000 = 2^26 + 2^24 + 2^23 + ... + 2^8. *)
Definition kSize_blocks : list N :=
  [26; 24; 23; 22; 21; 20; 18; 16; 15; 14; 13; 8]%N.

(** [2^(k+1)] as a float: the sum of a block of [2^k] copies of [2.0f]
    added pairwise. *)
Definition block_sum (k : N) : float32 :=
  N.iter k (fun x => add x x) two.

(** Sum of the blocks, adding the next smaller block to the right. *)
Fixpoint blocks_sum (k : N) (ks : list N) : float32 :=
  match ks with
  | [] => block_sum k
  | k' :: ks' => add (block_sum k) (blocks_sum k' ks')
  end.

Definition blocks_size (ks : list N) : N :=
  foldr (fun k acc => (2 ^ k + acc)%N) 0%N ks.

(** The run of [main] that ends with the sum [s]. *)
Definition run_with (s : float32) : run :=
  MkRun (replicate (N.to_nat kSize) two) (replicate (N.to_nat kSize) two)
    s (exit_code s).

(** Pairwise addition of power-of-two blocks. *)
Definition balanced_run : run := run_with expected_sum.

(** How close a sum is to the expected 200,000,000, as integers. *)
Definition within_tolerance (tol : Z) (s : float32) : bool :=
  match to_Z s with
  | Some z => Z.abs (z - 200000000) <=? tol
  | None => false
  end.

(** A three-element buffer and one of its runs, for the examples: the
    elements are visited in the order 2, 0, 1 and summed as
    [(0 + a0) + (a1 + a2)]. *)
Definition small_data : list float32 :=
  [one; two; S754_finite true 8388608 (-23)].

Definition small_order : list nat := [2; 0; 1]%nat.

Definition small_grouping : grouping := Node (Node Leaf Leaf) (Node Leaf Leaf).

(** The run on [data0] that visits the elements in [order] and adds
    [0.0f] and the transformed elements as [g] groups them. *)
Definition run_of (order : list nat) (g : grouping) (data0 : list float32) : run :=
  let data1 := transform double_it order data0 in
  match run_grouping add g (zero :: data1) with
  | Some (s, _) => MkRun data1 data1 s (exit_code s)
  | None => MkRun data1 data1 zero 1
  end.

Definition small_run : run := run_of small_order small_grouping small_data.

(** A one-element buffer holding [-1.0f]. *)
Definition negative_data : list float32 := [S754_finite true 8388608 (-23)].

Definition negative_run : run := run_of [0%nat] (Node Leaf Leaf) negative_data.

(** [main] built against a standard library whose [std::reduce] computes
    [impl]: the order of the transform's element accesses is the only
    choice left to a run. *)
Inductive main_using (impl : list float32 -> float32 -> float32)
    (data0 : list float32) : run -> Prop :=
| main_using_intro order :
    schedule order (length data0) ->
    let data1 := transform double_it order data0 in
    let s := impl data1 zero in
    main_using impl data0 (MkRun data1 data1 s (exit_code s)).

(** A [std::reduce] that conforms to the standard: what it returns is a
    generalized sum of the initial value and the range. *)
Definition conforming (impl : list float32 -> float32 -> float32) : Prop :=
  forall l init, generalized_sum add (init :: l) (impl l init).

(** The [std::reduce] of libstdc++. *)
Definition libstdcxx_reduce : list float32 -> float32 -> float32 :=
  reduce_by_four add.

(** The sum the libstdc++ grouping ends with, and its run. *)
Definition blockwise_sum : float32 := of_Z 134217728.

Definition libstdcxx_run : run := run_with blockwise_sum.

(** [(2.0f + 2.0f) + (2.0f + 2.0f)], the sum of one block of four. *)
Definition eight : float32 := S754_finite false 8388608 (-20).

(** The sum after [k] additions of [2^p] to [0.0f], one at a time:
    [k * 2^p] as long as [k < 2^24], and [2^(24+p)] from then on. *)
Definition partial_sum_scaled (p k : Z) : float32 :=
  if k <=? 0 then zero
  else if k <? 2 ^ 24
       then S754_finite false (Z.to_pos (k * 2 ^ (23 - Z.log2 k)))
              (Z.log2 k - 23 + p)
       else S754_finite false 8388608 (1 + p).



(** Exact doubling of a float, on its representation: one more in the
    exponent of a normal float (infinity beyond the largest exponent),
    twice the mantissa of a subnormal one. *)
Definition doubled (x : float32) : float32 :=
  match x with
  | S754_finite s m e =>
      if Z.pos (digits2_pos m) =? 24
      then if e + 1 <=? emax - prec
           then S754_finite s m (e + 1) else S754_infinity s
      else S754_finite s m~0 e
  | _ => x
  end.

(** A float a buffer can hold: a canonical finite float, a zero, an
    infinity or NaN. *)
Definition valid (x : float32) : bool := valid_binary prec emax x.

(** The run on a buffer of [n] ones in which the reduction adds the
    elements one at a time, left to right. *)
Definition accumulate_run (n : nat) : run :=
  let s := accumulate add (replicate n two) zero in
  MkRun (replicate n two) (replicate n two) s (exit_code s).

(** Buffers and runs for the examples. *)
Definition three_ones_run : run :=
  run_of [1; 2; 0]%nat (Node Leaf (Node (Node Leaf Leaf) Leaf)) [one; one; one].

Definition nan_data : list float32 := [one; S754_nan; one].

Definition nan_run : run :=
  run_of [0; 1; 2]%nat (Node (Node Leaf Leaf) (Node Leaf Leaf)) nan_data.

Definition zero_one_data : list float32 := [zero; one].

Definition zero_one_run : run :=
  run_of [1; 0]%nat (Node Leaf (Node Leaf Leaf)) zero_one_data.

(** The smallest subnormal float, [2^-149], and the largest finite one. *)
Definition smallest_subnormal : float32 := S754_finite false 1 (-149).

Definition largest_finite : float32 := S754_finite false 16777215 104.

Definition edge_data : list float32 := [smallest_subnormal; largest_finite; one].

Definition edge_run : run :=
  run_of [2; 1; 0]%nat (Node (Node Leaf Leaf) (Node Leaf Leaf)) edge_data.

End StdparTest.

(** ** Programs that interact with their surroundings *)

Module Interaction.

(** A terminating program over events [E]: it returns, or performs an
    event and continues with the answer. *)
Inductive prog (E : Type -> Type) (R : Type) : Type :=
| Ret (r : R)
| Vis {X : Type} (e : E X) (k : X -> prog E R).

Arguments Ret {E R} r.
Arguments Vis {E R X} e k.

Fixpoint bind {E R S} (p : prog E R) (f : R -> prog E S) : prog E S :=
  match p with
  | Ret r => f r
  | Vis e k => Vis e (fun x => bind (k x) f)
  end.

Definition trigger {E X} (e : E X) : prog E X := Vis e Ret.

#[export] Instance prog_ret {E} : MRet (prog E) := fun _ r => Ret r.
#[export] Instance prog_bind {E} : MBind (prog E) := fun _ _ f p => bind p f.

(** An event together with its answer type, as it appears in a trace. *)
Inductive call (E : Type -> Type) : Type :=
| Call {X : Type} (e : E X).

Arguments Call {E X} e.

(** A handler answers an event in a state, or faults. *)
Definition handler (E : Type -> Type) (W : Type) : Type :=
  forall X, E X -> W -> option (X * W).

(** Running a program: the calls made, in order, and the result when no
    call faulted. *)
Fixpoint exec {E W R} (h : handler E W) (p : prog E R) (w : W)
  : list (call E) * option (R * W) :=
  match p with
  | Ret r => ([], Some (r, w))
  | Vis e k =>
      match h _ e w with
      | None => ([Call e], None)
      | Some (x, w') =>
          let '(t, res) := exec h (k x) w' in (Call e :: t, res)
      end
  end.

End Interaction.

(** ** gpu_validation/tests/palabos_minimal.cpp *)

Module PalabosMinimal.
Import Interaction.

(** [plint] is a signed 64-bit integer; the constants are far from its
    bounds and no arithmetic is done on them. *)
Definition plint : Type := Z.

Definition nx : plint := 100.
Definition ny : plint := 100.
Definition nz : plint := 100.
Definition iterations : Z := 100.
Definition omega : float := 1.0%float.

Section Library.
(** Objects owned by the library: a dynamics object on the heap and
    the lattice. *)
Variables Dyn Lat : Type.

(** The calls [main] makes into the library.  [plbInit] receives
    pointers to [argc] and [argv] and may rewrite both. *)
Inductive plbE : Type -> Type :=
| plbInit (argc : Z) (argv : list string) : plbE (Z * list string)
| AcceleratedBGKdynamics (omega : float) : plbE Dyn
| MultiBlockLattice3D (nx ny nz : plint) (dynamics : Dyn) : plbE Lat
| initialize (lattice : Lat) : plbE unit
| collideAndStream (lattice : Lat) : plbE unit.

(** [for (int i = 0; i < iterations; ++i) lattice.collideAndStream();]
    from the counter value [i] on.  [i] stays within [0, 100], so the
    [int] never overflows. *)
Equations? collide_loop (lattice : Lat) (i : Z) : prog plbE unit
  by wf (Z.to_nat (iterations - i)) lt :=
  collide_loop lattice i with inspect (i <? iterations) := {
    | exist _ true _ =>
        Vis (collideAndStream lattice) (fun _ => collide_loop lattice (i + 1));
    | exist _ false _ => Ret tt }.
Proof. apply Z.ltb_lt in e. lia. Qed.

(** The statements of [main] after [plbInit]. *)
Definition simulate : prog plbE Z :=
  dynamics ← trigger (AcceleratedBGKdynamics omega);
  lattice ← trigger (MultiBlockLattice3D nx ny nz dynamics);
  trigger (initialize lattice);;
  collide_loop lattice 0;;
  Ret 0.

Definition main (argc : Z) (argv : list string) : prog plbE Z :=
  trigger (plbInit argc argv);;
  simulate.

(** The calls of a run without the leading [plbInit]. *)
Definition expected_calls (dynamics : Dyn) (lattice : Lat) : list (call plbE) :=
  [Call (AcceleratedBGKdynamics 1.0%float);
   Call (MultiBlockLattice3D 100 100 100 dynamics);
   Call (initialize lattice)]
  ++ replicate 100 (Call (collideAndStream lattice)).

(** Observers of a trace. *)
Definition is_collide (c : call plbE) : bool :=
  match c with
  | Call (collideAndStream _) => true
  | _ => false
  end.

Definition is_initialize (c : call plbE) : bool :=
  match c with
  | Call (initialize _) => true
  | _ => false
  end.

(** The arguments of a call are the program's constants. *)
Definition uses_constants (c : call plbE) : bool :=
  match c with
  | Call (AcceleratedBGKdynamics w) => PrimFloat.eqb w 1.0%float
  | Call (MultiBlockLattice3D x y z _) =>
      (x =? 100) && (y =? 100) && (z =? 100)
  | _ => true
  end.
End Library.

Arguments plbInit {Dyn Lat}.
Arguments AcceleratedBGKdynamics {Dyn Lat}.
Arguments MultiBlockLattice3D {Dyn Lat}.
Arguments initialize {Dyn Lat}.
Arguments collideAndStream {Dyn Lat}.

(** A library that always returns: handles are numbers, the state counts
    the collide-and-stream steps done, [plbInit] strips its arguments. *)
Definition counting_library : handler (plbE N N) N :=
  fun X e =>
    match e in plbE _ _ X return N -> option (X * N) with
    | plbInit argc argv => fun w => Some ((1, take 1 argv), w)
    | AcceleratedBGKdynamics _ => fun w => Some (7%N, w)
    | MultiBlockLattice3D _ _ _ _ => fun w => Some (9%N, w)
    | initialize _ => fun w => Some (tt, 0%N)
    | collideAndStream _ => fun w => Some (tt, N.succ w)
    end.

(** A library whose device allocation fails in the warm-up. *)
Definition faulting_library : handler (plbE N N) N :=
  fun X e =>
    match e in plbE _ _ X return N -> option (X * N) with
    | initialize _ => fun _ => None
    | e' => counting_library _ e'
    end.

(** The state after [n] collide-and-stream steps in a row on [lattice],
    when none of them faults. *)
Fixpoint collide_steps {Dyn Lat W : Type} (h : handler (plbE Dyn Lat) W)
    (lattice : Lat) (n : nat) (w : W) : option W :=
  match n with
  | O => Some w
  | S n' =>
      match h _ (collideAndStream lattice) w with
      | None => None
      | Some (_, w') => collide_steps h lattice n' w'
      end
  end.

(** A library that hands out a fresh handle per object and records, per
    lattice, how often it was stepped; stepping a lattice that was never
    initialized is a fault. *)
Record bookkeeping : Type := MkBook {
  next_handle : N;
  initialized : list N;
  steps : list N
}.

Definition bookkeeping_library : handler (plbE N N) bookkeeping :=
  fun X e =>
    match e in plbE _ _ X return bookkeeping -> option (X * bookkeeping) with
    | plbInit argc argv => fun b => Some ((argc, argv), b)
    | AcceleratedBGKdynamics _ => fun b =>
        Some (next_handle b, MkBook (N.succ (next_handle b)) (initialized b) (steps b))
    | MultiBlockLattice3D _ _ _ _ => fun b =>
        Some (next_handle b, MkBook (N.succ (next_handle b)) (initialized b) (steps b))
    | initialize lattice => fun b =>
        Some (tt, MkBook (next_handle b) (lattice :: initialized b) (steps b))
    | collideAndStream lattice => fun b =>
        if bool_decide (lattice ∈ initialized b)
        then Some (tt, MkBook (next_handle b) (initialized b) (lattice :: steps b))
        else None
    end.

End PalabosMinimal.

(** ** test-project/main.cpp *)

Module DependencyTest.
Import Interaction.

(** What a process can do with its surroundings.  [main] of the
    dependency test only writes; the reading events are what a real
    check of the named dependencies would have to use. *)
Inductive ioE : Type -> Type :=
| cout (s : string) : ioE unit              (* [std::cout << s] *)
| endl : ioE unit                           (* [<< std::endl] *)
| read_stdin : ioE string
| getenv (name : string) : ioE (option string)
| file_exists (path : string) : ioE bool
| dlopen (library : string) : ioE bool.

(** The surroundings of one run. *)
Record environment : Type := MkEnv {
  argv : list string;
  stdin : list string;
  variables : string -> option string;
  files : string -> bool;
  libraries : string -> bool
}.

(** The state of a running process: what is left of its input and what
    it has written so far. *)
Record process : Type := MkProcess {
  env : environment;
  unread : list string;
  stdout : string;
  flushes : nat
}.

Definition start (e : environment) : process :=
  MkProcess e (stdin e) "" 0.

Definition write (s : string) (p : process) : process :=
  MkProcess (env p) (unread p) (stdout p +:+ s) (flushes p).

Definition newline : string := String (Ascii.ascii_of_nat 10) EmptyString.

Definition os : handler ioE process :=
  fun X e =>
    match e in ioE X return process -> option (X * process) with
    | cout s => fun p => Some (tt, write s p)
    | endl => fun p =>
        let p' := write newline p in
        Some (tt, MkProcess (env p') (unread p') (stdout p') (S (flushes p')))
    | read_stdin => fun p =>
        match unread p with
        | [] => Some (""%string, p)
        | l :: rest => Some (l, MkProcess (env p) rest (stdout p) (flushes p))
        end
    | getenv name => fun p => Some (variables (env p) name, p)
    | file_exists path => fun p => Some (files (env p) path, p)
    | dlopen library => fun p => Some (libraries (env p) library, p)
    end.

(** [std::cout << s << std::endl;] *)
Definition print_line (s : string) : prog ioE unit :=
  trigger (cout s);; trigger endl.

Definition main : prog ioE Z :=
  print_line "🧪 CoralMachine Dependency Test";;
  print_line "✅ Palabos library available for linking";;
  print_line "✅ Geometry Central library available for linking";;
  print_line "✅ CUDA toolkit available";;
  print_line "✅ C++20 compilation successful";;
  print_line "🎉 Basic dependency test passed!";;
  print_line "📝 Note: MPI and full Palabos headers need container-specific setup";;
  Ret 0.

(** The confirmation strings, in the order of the source. *)
Definition confirmation_strings : list string :=
  ["🧪 CoralMachine Dependency Test";
   "✅ Palabos library available for linking";
   "✅ Geometry Central library available for linking";
   "✅ CUDA toolkit available";
   "✅ C++20 compilation successful";
   "🎉 Basic dependency test passed!";
   "📝 Note: MPI and full Palabos headers need container-specific setup"]%string.

(** The text a run is expected to leave on standard output. *)
Definition static_text : string :=
  foldr (fun s acc => s +:+ newline +:+ acc) ""%string confirmation_strings.

(** Running [main] in an environment: standard output and exit code. *)
Definition run (e : environment) : option (string * Z) :=
  match snd (exec os main (start e)) with
  | Some (code, p) => Some (stdout p, code)
  | None => None
  end.

(** Offsets at which [pat] occurs in [s], counted from [from]. *)
Fixpoint occurrences_from (from : nat) (pat s : string) : list nat :=
  match s with
  | EmptyString => if String.prefix pat s then [from] else []
  | String _ rest =>
      (if String.prefix pat s then [from] else [])
      ++ occurrences_from (S from) pat rest
  end.

Definition occurrences (pat s : string) : list nat :=
  occurrences_from 0 pat s.

(** Strictly increasing offsets. *)
Fixpoint increasing (l : list nat) : bool :=
  match l with
  | a :: (b :: _) as rest => (a <? b)%nat && increasing rest
  | _ => true
  end.

(** Does a program ever read from its surroundings? *)
Definition is_output {X} (e : ioE X) : bool :=
  match e with
  | cout _ | endl => true
  | _ => false
  end.

Definition writes_only (t : list (call ioE)) : bool :=
  forallb (fun c => match c with Call e => is_output e end) t.

(** Two environments for the examples: an empty machine, and one where
    everything the program names is installed. *)
Definition bare_environment : environment :=
  MkEnv [] [] (fun _ => None) (fun _ => false) (fun _ => false).

Definition full_environment : environment :=
  MkEnv ["./test-project"; "--verbose"]%string ["yes"]%string
    (fun _ => Some "/opt/deps/lib"%string) (fun _ => true) (fun _ => true).

(** The lines of a text: the pieces that end with a newline, and what
    follows the last newline. *)
Fixpoint lines_from (line s : string) : list string * string :=
  match s with
  | EmptyString => ([], line)
  | String c rest =>
      if Ascii.eqb c (Ascii.ascii_of_nat 10)
      then let '(ls, last) := lines_from EmptyString rest in (line :: ls, last)
      else lines_from (line +:+ String c EmptyString) rest
  end.

Definition lines (s : string) : list string * string :=
  lines_from EmptyString s.

End DependencyTest.

(** * Facts about binary32 addition *)

Module Binary32Facts.
Import Binary32.

Lemma digits2_pos_bounds (m : positive) :
  2 ^ (Z.pos (digits2_pos m) - 1) <= Z.pos m < 2 ^ Z.pos (digits2_pos m).
Proof.
  induction m as [p IH | p IH |]; cbn [digits2_pos].
  - rewrite Pos2Z.inj_succ, Z.pow_succ_r by lia.
    replace (Z.succ (Z.pos (digits2_pos p)) - 1) with (Z.succ (Z.pos (digits2_pos p) - 1)) by lia.
    rewrite Z.pow_succ_r by lia. lia.
  - rewrite Pos2Z.inj_succ, Z.pow_succ_r by lia.
    replace (Z.succ (Z.pos (digits2_pos p)) - 1) with (Z.succ (Z.pos (digits2_pos p) - 1)) by lia.
    rewrite Z.pow_succ_r by lia. lia.
  - cbn. lia.
Qed.

Lemma shr_1_div2 (mrs : shr_record) :
  0 <= shr_m mrs -> shr_m (shr_1 mrs) = Z.shiftr (shr_m mrs) 1.
Proof.
  destruct mrs as [[|[p|p|]|p] r s]; cbn; intros H; try reflexivity; lia.
Qed.

Lemma iter_shr_1 (p : positive) (mrs : shr_record) :
  0 <= shr_m mrs ->
  shr_m (SpecFloat.iter_pos shr_1 p mrs) = Z.shiftr (shr_m mrs) (Z.pos p).
Proof.
  revert mrs.
  induction p as [p IH | p IH |]; intros mrs Hm; cbn [SpecFloat.iter_pos].
  - assert (H1 : 0 <= shr_m (shr_1 mrs)).
    { rewrite shr_1_div2 by done. apply Z.shiftr_nonneg. done. }
    assert (H2 : 0 <= shr_m (SpecFloat.iter_pos shr_1 p (shr_1 mrs))).
    { rewrite IH by done. apply Z.shiftr_nonneg. done. }
    rewrite IH, IH, shr_1_div2 by done.
    rewrite !Z.shiftr_shiftr by lia. f_equal. lia.
  - assert (H2 : 0 <= shr_m (SpecFloat.iter_pos shr_1 p mrs)).
    { rewrite IH by done. apply Z.shiftr_nonneg. done. }
    rewrite IH, IH by done.
    rewrite !Z.shiftr_shiftr by lia. f_equal. lia.
  - apply shr_1_div2. done.
Qed.

Lemma shr_record_of_loc_m (m : Z) (l : location) :
  shr_m (shr_record_of_loc m l) = m.
Proof. destruct l as [|[]]; reflexivity. Qed.

(** Shifting a positive mantissa to its canonical exponent keeps it
    positive, and never lowers the exponent. *)
Lemma shr_fexp_pos (m : positive) (e : Z) (l : location) :
  emin <= e ->
  0 < shr_m (fst (shr_fexp prec emax (Z.pos m) e l))
  /\ e <= snd (shr_fexp prec emax (Z.pos m) e l).
Proof.
  unfold emin, SpecFloat.emin, prec, emax. intros He.
  unfold shr_fexp, shr, fexp, SpecFloat.emin, Zdigits2.
  pose proof (digits2_pos_bounds m) as [Hlo _].
  set (d := Z.pos (digits2_pos m)) in *.
  destruct (Z.max (d + e - 24) (3 - 128 - 24) - e) as [|p|p] eqn:Hn; cbn [fst snd].
  - rewrite shr_record_of_loc_m. lia.
  - rewrite iter_shr_1 by (rewrite shr_record_of_loc_m; lia).
    rewrite shr_record_of_loc_m, Z.shiftr_div_pow2 by lia.
    split; [|lia].
    apply Z.div_str_pos. split; [lia|].
    assert (Z.pos p <= d - 1) by lia.
    etransitivity; [|exact Hlo].
    apply Z.pow_le_mono_r; lia.
  - rewrite shr_record_of_loc_m. lia.
Qed.

Lemma round_nearest_even_pos (m : Z) (l : location) :
  0 < m -> 0 < round_nearest_even m l.
Proof.
  intros Hm. destruct l as [|[]]; cbn; try lia.
  destruct (Z.even m); lia.
Qed.

Lemma binary_round_aux_pos (m : positive) (e : Z) (l : location) :
  emin <= e ->
  is_pos (binary_round_aux prec emax false (Z.pos m) e l) = true.
Proof.
  intros He. unfold binary_round_aux.
  pose proof (shr_fexp_pos m e l He) as [Hm1 He1].
  destruct (shr_fexp prec emax (Z.pos m) e l) as [mrs1 e1]. cbn [fst snd] in *.
  pose proof (round_nearest_even_pos (shr_m mrs1) (loc_of_shr_record mrs1) Hm1) as Hr.
  destruct (round_nearest_even (shr_m mrs1) (loc_of_shr_record mrs1)) as [|m2|m2]; try lia.
  assert (He1' : emin <= e1) by lia.
  pose proof (shr_fexp_pos m2 e1 loc_Exact He1') as [Hm2 He2].
  destruct (shr_fexp prec emax (Z.pos m2) e1 loc_Exact) as [mrs2 e2]. cbn [fst snd] in *.
  destruct (shr_m mrs2) as [|m3|m3]; try lia.
  destruct (e2 <=? emax - prec); cbn; [|reflexivity].
  apply Z.leb_le. lia.
Qed.

Lemma binary_round_pos (m : positive) (e : Z) :
  emin <= e -> is_pos (binary_round prec emax false m e) = true.
Proof.
  intros He. unfold binary_round, shl_align.
  set (e' := fexp prec emax (Z.pos (digits2_pos m) + e)).
  assert (He' : emin <= e').
  { unfold e', fexp, emin. lia. }
  destruct (e' - e); apply binary_round_aux_pos; lia.
Qed.

(** The sum of two positive floats is positive (possibly infinite). *)
Lemma add_pos_pos (x y : float32) :
  is_pos x = true -> is_pos y = true -> is_pos (add x y) = true.
Proof.
  destruct x as [sx|[]| |[] mx ex], y as [sy|[]| |[] my ey]; cbn; try done.
  intros Hx%Z.leb_le Hy%Z.leb_le.
  unfold add, SFadd, binary_normalize. cbn [cond_Zopp].
  destruct (shl_align mx ex (Z.min ex ey)) as [mx' ex'].
  destruct (shl_align my ey (Z.min ex ey)) as [my' ey']. cbn [fst].
  apply binary_round_pos. lia.
Qed.

Lemma add_nonneg_nonneg (x y : float32) :
  is_nonneg x = true -> is_nonneg y = true -> is_nonneg (add x y) = true.
Proof.
  destruct x as [[]|[]| |[] mx ex], y as [[]|[]| |[] my ey]; try done.
  intros Hx Hy.
  pose proof (add_pos_pos _ _ Hx Hy) as H.
  unfold is_nonneg. destruct (add _ _) as [[]| | |]; done.
Qed.

Lemma add_pos_nonneg (x y : float32) :
  is_pos x = true -> is_nonneg y = true -> is_pos (add x y) = true.
Proof.
  destruct x as [[]|[]| |[] mx ex], y as [[]|[]| |[] my ey]; try done.
  intros Hx Hy. by apply add_pos_pos.
Qed.

Lemma add_nonneg_pos (x y : float32) :
  is_nonneg x = true -> is_pos y = true -> is_pos (add x y) = true.
Proof.
  destruct x as [[]|[]| |[] mx ex], y as [[]|[]| |[] my ey]; try done.
  intros Hx Hy. by apply add_pos_pos.
Qed.

Lemma is_pos_gtb_zero (x : float32) : is_pos x = true -> gtb x zero = true.
Proof. destruct x as [[]|[]| |[] m e]; done. Qed.

Lemma gtb_zero_strictly_positive (x : float32) :
  gtb x zero = strictly_positive x.
Proof. destruct x as [[]|[]| |[] m e]; reflexivity. Qed.

(** ** Exact additions *)

Lemma digits2_pos_unique (m : positive) (d : Z) :
  2 ^ (d - 1) <= Z.pos m < 2 ^ d -> Z.pos (digits2_pos m) = d.
Proof.
  intros [Hlo Hhi].
  pose proof (digits2_pos_bounds m) as [Hlo' Hhi'].
  set (D := Z.pos (digits2_pos m)) in *.
  assert (HD : 0 < D) by (unfold D; lia).
  destruct (Z.lt_trichotomy D d) as [Hlt|[Heq|Hgt]]; [|exact Heq|].
  - assert (2 ^ D <= 2 ^ (d - 1)) by (apply Z.pow_le_mono_r; lia). lia.
  - assert (0 <= d).
    { destruct (Z.le_gt_cases 0 d) as [|Hneg]; [done|].
      rewrite (Z.pow_neg_r 2 d) in Hhi by lia. lia. }
    assert (2 ^ d <= 2 ^ (D - 1)) by (apply Z.pow_le_mono_r; lia). lia.
Qed.

Lemma shr_1_double (a : Z) :
  0 <= a ->
  shr_1 (Build_shr_record (2 * a) false false) = Build_shr_record a false false.
Proof. destruct a as [|q|q]; [reflexivity|reflexivity|lia]. Qed.

(** Shifting out [p] zero bits is exact. *)
Lemma iter_shr_1_exact (p : positive) (q : Z) :
  0 <= q ->
  SpecFloat.iter_pos shr_1 p (Build_shr_record (q * 2 ^ Z.pos p) false false)
  = Build_shr_record q false false.
Proof.
  revert q. induction p as [p IH | p IH |]; intros q Hq; cbn [SpecFloat.iter_pos].
  - replace (q * 2 ^ Z.pos p~1) with (2 * ((q * 2 ^ Z.pos p) * 2 ^ Z.pos p)).
    + rewrite shr_1_double by (apply Z.mul_nonneg_nonneg; lia).
      rewrite IH by lia. apply IH, Hq.
    + rewrite (Pos2Z.inj_xI p), Z.pow_add_r, Z.pow_twice_r by lia.
      change (2 ^ 1) with 2. ring.
  - replace (q * 2 ^ Z.pos p~0) with ((q * 2 ^ Z.pos p) * 2 ^ Z.pos p).
    + rewrite IH by lia. apply IH, Hq.
    + rewrite (Pos2Z.inj_xO p), Z.pow_twice_r. ring.
  - change (2 ^ 1) with 2. rewrite Z.mul_comm. apply shr_1_double, Hq.
Qed.

Lemma Pos_iter_xO (m d : positive) :
  Z.pos (Pos.iter xO m d) = Z.pos m * 2 ^ Z.pos d.
Proof.
  induction d as [|d IH] using Pos.peano_ind.
  - cbn. lia.
  - rewrite Pos.iter_succ, (Pos2Z.inj_xO (Pos.iter xO m d)), IH,
      Pos2Z.inj_succ, Z.pow_succ_r by lia. lia.
Qed.

(** Aligning to a smaller exponent multiplies the mantissa. *)
Lemma shl_align_down (m : positive) (e e' : Z) :
  e' <= e ->
  Z.pos (fst (shl_align m e e')) = Z.pos m * 2 ^ (e - e')
  /\ snd (shl_align m e e') = e'.
Proof.
  intros He. unfold shl_align.
  destruct (e' - e) as [|d|d] eqn:Hd; cbn [fst snd]; [| lia |].
  - replace (e - e') with 0 by lia. split; lia.
  - rewrite Pos_iter_xO. replace (e - e') with (Z.pos d) by lia. split; lia.
Qed.

(** Rounding a mantissa that is a 24-bit mantissa [m0] followed by [n]
    zero bits returns [m0] with the exponent raised by [n]. *)
Lemma binary_round_exact (M m0 : positive) (e0 n : Z) :
  0 <= n ->
  Z.pos M = Z.pos m0 * 2 ^ n ->
  2 ^ 23 <= Z.pos m0 < 2 ^ 24 ->
  emin <= e0 -> e0 + n <= emax - prec ->
  binary_round prec emax false M e0 = S754_finite false m0 (e0 + n).
Proof.
  unfold emin, SpecFloat.emin, prec, emax. intros Hn HM Hm0 He0 Hmax.
  assert (Hd0 : Z.pos (digits2_pos m0) = 24) by (by apply digits2_pos_unique).
  assert (HdM : Z.pos (digits2_pos M) = 24 + n).
  { apply digits2_pos_unique. rewrite HM.
    replace (24 + n - 1) with (23 + n) by lia.
    rewrite !Z.pow_add_r by lia.
    assert (0 < 2 ^ n) by (apply Z.pow_pos_nonneg; lia). nia. }
  unfold binary_round. rewrite HdM.
  assert (Hf : fexp 24 128 (24 + n + e0) = n + e0).
  { unfold fexp, SpecFloat.emin. lia. }
  rewrite Hf. unfold shl_align.
  replace (n + e0 - e0) with n by lia.
  assert (Haux : binary_round_aux 24 128 false (Z.pos M) e0 loc_Exact
                 = S754_finite false m0 (e0 + n)).
  { unfold binary_round_aux, shr_fexp, Zdigits2. rewrite HdM, Hf.
    replace (n + e0 - e0) with n by lia.
    cbn [shr_record_of_loc]. unfold shr at 1.
    assert (Hshift : (match n with
              | Z.pos p => (SpecFloat.iter_pos shr_1 p (Build_shr_record (Z.pos M) false false), e0 + n)
              | _ => (Build_shr_record (Z.pos M) false false, e0)
              end) = (Build_shr_record (Z.pos m0) false false, e0 + n)).
    { destruct n as [|p|p]; [| |lia].
      - rewrite Z.pow_0_r, Z.mul_1_r in HM. rewrite HM. f_equal. lia.
      - rewrite HM, iter_shr_1_exact by lia. reflexivity. }
    rewrite Hshift. cbn [shr_m loc_of_shr_record round_nearest_even].
    rewrite Hd0.
    assert (Hf' : fexp 24 128 (24 + (e0 + n)) - (e0 + n) = 0).
    { unfold fexp, SpecFloat.emin. lia. }
    rewrite Hf'. cbn [shr_record_of_loc shr shr_m].
    replace (e0 + n <=? 128 - 24) with true by (symmetry; apply Z.leb_le; lia).
    reflexivity. }
  destruct n as [|p|p]; [exact Haux|exact Haux|lia].
Qed.

(** Adding [2.0f] to a float of exponent [e] in [-22, 1] raises its
    24-bit mantissa by [2^(1-e)], exactly. *)
Lemma add_two_binary_round (m : positive) (e : Z) :
  -22 <= e ->
  add (S754_finite false m e) two
  = binary_round prec emax false (fst (shl_align m e (-22)) + 8388608)%positive (-22).
Proof.
  intros He. unfold add, two, SFadd. rewrite Z.min_r by lia.
  cbn [cond_Zopp]. reflexivity.
Qed.

Lemma add_two_exact (m : positive) (e : Z) :
  -22 <= e <= 1 ->
  2 ^ 23 <= Z.pos m ->
  Z.pos m + 2 ^ (1 - e) < 2 ^ 24 ->
  add (S754_finite false m e) two
  = S754_finite false (Z.to_pos (Z.pos m + 2 ^ (1 - e))) e.
Proof.
  intros He Hlo Hhi. rewrite add_two_binary_round by lia.
  assert (Hp : 0 < 2 ^ (1 - e)) by (apply Z.pow_pos_nonneg; lia).
  replace e with (-22 + (e + 22)) at 3 by lia.
  destruct (shl_align_down m e (-22) ltac:(lia)) as [Hm _].
  apply binary_round_exact; unfold emin, SpecFloat.emin, prec, emax; try lia.
  rewrite Pos2Z.inj_add, Hm, Z2Pos.id by lia.
  rewrite Z.mul_add_distr_r, <- Z.pow_add_r by lia.
  replace (e - -22) with (e + 22) by lia.
  replace (1 - e + (e + 22)) with 23 by lia. reflexivity.
Qed.

Lemma add_two_carry (m : positive) (e : Z) :
  -22 <= e <= 1 ->
  Z.pos m + 2 ^ (1 - e) = 2 ^ 24 ->
  add (S754_finite false m e) two = S754_finite false 8388608 (e + 1).
Proof.
  intros He Hm24. rewrite add_two_binary_round by lia.
  replace (e + 1) with (-22 + (e + 23)) by lia.
  destruct (shl_align_down m e (-22) ltac:(lia)) as [Hm _].
  apply binary_round_exact; unfold emin, SpecFloat.emin, prec, emax; try lia.
  rewrite Pos2Z.inj_add, Hm.
  replace (Z.pos m) with (2 ^ 24 - 2 ^ (1 - e)) by lia.
  replace (e - -22) with (e + 22) by lia.
  rewrite Z.mul_sub_distr_r, <- !Z.pow_add_r by lia.
  replace (1 - e + (e + 22)) with 23 by lia.
  change (Z.pos 8388608) with (2 ^ 23).
  replace (24 + (e + 22)) with (23 + (e + 23)) by lia.
  rewrite (Z.pow_add_r 2 23 (e + 23)) by lia. lia.
Qed.

End Binary32Facts.

(** * Facts about the parallel algorithms *)

Module StdAlgorithmFacts.
Import Binary32 Binary32Facts StdAlgorithm.

Section TransformFacts.
Context {A : Type}.
Variable f : A -> A.

Lemma transform_at_lookup (buf : list A) (j i : nat) :
  transform_at f buf j !! i
  = if decide (i = j) then f <$> buf !! i else buf !! i.
Proof.
  unfold transform_at. destruct (decide (i = j)) as [->|Hne].
  - destruct (buf !! j) as [x|] eqn:Hj; [|by rewrite Hj].
    rewrite list_lookup_insert_eq; [done|]. by eapply lookup_lt_Some.
  - destruct (buf !! j) as [x|]; [|done].
    by rewrite list_lookup_insert_ne.
Qed.

Lemma transform_at_length (buf : list A) (j : nat) :
  length (transform_at f buf j) = length buf.
Proof.
  unfold transform_at. destruct (buf !! j); [apply length_insert|done].
Qed.

Lemma transform_length (order : list nat) (buf : list A) :
  length (transform f order buf) = length buf.
Proof.
  revert buf. induction order as [|j order IH]; intros buf; [done|].
  change (transform f (j :: order) buf) with (transform f order (transform_at f buf j)).
  rewrite IH. apply transform_at_length.
Qed.

(** Each index that is visited once holds the image of the element that
    was there before the call; the other indices are untouched. *)
Lemma transform_lookup (order : list nat) (buf : list A) (i : nat) :
  NoDup order ->
  transform f order buf !! i
  = if decide (i ∈ order) then f <$> buf !! i else buf !! i.
Proof.
  revert buf. induction order as [|j order IH]; intros buf Hnd.
  - cbn. destruct (decide (i ∈ [])) as [H|_]; [|done]. by apply elem_of_nil in H.
  - apply NoDup_cons in Hnd as [Hj Hnd].
    change (transform f (j :: order) buf) with (transform f order (transform_at f buf j)).
    rewrite IH, transform_at_lookup by done.
    destruct (decide (i = j)) as [->|Hne].
    + destruct (decide (j ∈ order)); [done|].
      destruct (decide (j ∈ j :: order)) as [|Hn]; [done|].
      exfalso. apply Hn. by left.
    + destruct (decide (i ∈ order)) as [Hin|Hnin];
        destruct (decide (i ∈ j :: order)) as [Hin'|Hnin']; try done.
      * exfalso. apply Hnin'. by right.
      * apply elem_of_cons in Hin' as [?|?]; done.
Qed.

(** Whatever the order of the element accesses, an in-place transform
    computes the elementwise image of the buffer. *)
Lemma transform_fmap (order : list nat) (buf : list A) :
  schedule order (length buf) -> transform f order buf = f <$> buf.
Proof.
  unfold schedule. intros Hs.
  assert (Hnd : NoDup order) by (rewrite Hs; apply NoDup_seq).
  apply list_eq. intros i.
  rewrite transform_lookup, list_lookup_fmap by done.
  destruct (decide (i ∈ order)) as [|Hn]; [done|].
  destruct (buf !! i) as [x|] eqn:Hi; [|done].
  exfalso. apply Hn. rewrite Hs. apply elem_of_seq.
  apply lookup_lt_Some in Hi. lia.
Qed.
End TransformFacts.

Section ReduceFacts.
Context {A : Type}.
Variable op : A -> A -> A.

(** A block of [2^k] equal elements, added pairwise. *)
Lemma noncommutative_sum_block (k : N) (x : A) :
  noncommutative_sum op (replicate (N.to_nat (2 ^ k)) x)
    (N.iter k (fun y => op y y) x).
Proof.
  induction k as [|k IH] using N.peano_ind.
  - change (N.to_nat (2 ^ 0)) with 1%nat. apply ncs_one.
  - rewrite N.pow_succ_r', N.iter_succ.
    replace (2 * 2 ^ k)%N with (2 ^ k + 2 ^ k)%N by lia.
    rewrite N2Nat.inj_add, replicate_add.
    by apply ncs_split.
Qed.

(** Left-to-right accumulation is one of the groupings. *)
Lemma accumulate_noncommutative_sum (l : list A) (init : A) :
  noncommutative_sum op (init :: l) (accumulate op l init).
Proof.
  unfold accumulate. induction l as [|x l IH] using rev_ind.
  - apply ncs_one.
  - rewrite foldl_app, app_comm_cons. cbn [foldl].
    apply ncs_split; [exact IH|apply ncs_one].
Qed.

(** An explicit grouping that consumes the whole list is one of the
    groupings of the noncommutative sum. *)
Lemma run_grouping_sound (g : grouping) (l rest : list A) (r : A) :
  run_grouping op g l = Some (r, rest) ->
  exists used, l = used ++ rest /\ noncommutative_sum op used r.
Proof.
  revert l rest r. induction g as [|g1 IH1 g2 IH2]; intros l rest r; cbn.
  - destruct l as [|a l]; [done|]. intros [= <- <-].
    exists [a]. split; [done|apply ncs_one].
  - destruct (run_grouping op g1 l) as [[a rest1]|] eqn:H1; [|done].
    destruct (run_grouping op g2 rest1) as [[b rest2]|] eqn:H2; [|done].
    intros [= <- <-].
    destruct (IH1 _ _ _ H1) as (u1 & -> & Hu1).
    destruct (IH2 _ _ _ H2) as (u2 & -> & Hu2).
    exists (u1 ++ u2). split; [by rewrite app_assoc|by apply ncs_split].
Qed.
End ReduceFacts.

(** Sums of non-negative floats are non-negative, and positive as soon as
    one summand is, for every grouping. *)
Lemma noncommutative_sum_sign (l : list float32) (r : float32) :
  noncommutative_sum add l r ->
  Forall (fun x => is_nonneg x = true) l ->
  is_nonneg r = true
  /\ (Exists (fun x => is_pos x = true) l -> is_pos r = true).
Proof.
  induction 1 as [a | l1 l2 a b H1 IH1 H2 IH2]; intros Hall.
  - pose proof (proj1 (Forall_singleton _ _) Hall) as Ha. split; [exact Ha|].
    intros [Hex|Hex]%Exists_inv; [exact Hex|inversion Hex].
  - apply Forall_app in Hall as [Hall1 Hall2].
    destruct (IH1 Hall1) as [Ha Ha']. destruct (IH2 Hall2) as [Hb Hb'].
    split; [by apply add_nonneg_nonneg|].
    intros [Hex|Hex]%Exists_app.
    + apply add_pos_nonneg; auto.
    + apply add_nonneg_pos; auto.
Qed.

Lemma generalized_sum_sign (l : list float32) (r : float32) :
  generalized_sum add l r ->
  Forall (fun x => is_nonneg x = true) l ->
  Exists (fun x => is_pos x = true) l ->
  is_pos r = true.
Proof.
  intros (l' & Hp & Hs) Hall Hex.
  rewrite <- Hp in Hall, Hex.
  by apply (noncommutative_sum_sign l' r Hs Hall).
Qed.

End StdAlgorithmFacts.

(** * gpu_validation/tests/stdpar_test.cpp: properties *)

Module StdparTestSpec.
Import Binary32 Binary32Facts StdAlgorithm StdAlgorithmFacts StdparTest.

(** The lambda maps [1.0f] to [2.0f], exactly. *)
Example double_it_one : double_it one = two.
Proof. reflexivity. Qed.

Example small_run_value :
  data_transformed small_run = [two; of_Z 4; S754_finite true 8388608 (-22)]
  /\ to_Z (sum small_run) = Some 4 /\ status small_run = 0.
Proof. repeat split. Qed.

Example negative_run_value :
  to_Z (sum negative_run) = Some (-2) /\ status negative_run = 1.
Proof. repeat split. Qed.

(** Left-to-right accumulation of six elements next to the pairwise sum:
    both are exact on a short buffer. *)
Example accumulate_small :
  accumulate add (replicate 6 two) zero = of_Z 12
  /\ run_grouping add (Node (Node (Node Leaf Leaf) (Node Leaf Leaf))
                            (Node (Node Leaf Leaf) Leaf))
       (zero :: replicate 6 two) = Some (of_Z 12, []).
Proof. split; reflexivity. Qed.

(** Beyond [2^25] a single [2.0f] is lost to rounding, and a tie rounds
    to the even mantissa in either direction. *)
Example saturated_absorbs_two :
  add saturated_sum two = saturated_sum
  /\ add (of_Z 33554436) two = of_Z 33554440.
Proof. split; reflexivity. Qed.

Lemma kSize_blocks_size : blocks_size kSize_blocks = kSize.
Proof. reflexivity. Qed.

Lemma kSize_pos : (0 < N.to_nat kSize)%nat.
Proof. unfold kSize. lia. Qed.

(** A run on an explicit order and grouping is a run of [main_on]. *)
Lemma main_on_run_of (order : list nat) (g : grouping) (data0 : list float32) (s : float32) :
  schedule order (length data0) ->
  run_grouping add g (zero :: transform double_it order data0) = Some (s, []) ->
  main_on data0 (run_of order g data0).
Proof.
  intros Hs Hg. unfold run_of. rewrite Hg.
  apply main_intro; [exact Hs|]. split; [reflexivity|].
  destruct (run_grouping_sound add _ _ _ _ Hg) as (used & Hu & Hsum).
  rewrite app_nil_r in Hu. subst used.
  exists (zero :: transform double_it order data0). split; [reflexivity|exact Hsum].
Qed.

Lemma small_order_schedule : schedule small_order (length small_data).
Proof.
  unfold schedule, small_order, small_data. cbn.
  etransitivity; [apply Permutation_swap|].
  apply Permutation_skip, Permutation_swap.
Qed.

Lemma small_run_main : main_on small_data small_run.
Proof.
  apply (main_on_run_of _ _ _ (of_Z 4)); [apply small_order_schedule|reflexivity].
Qed.

Lemma negative_run_main : main_on negative_data negative_run.
Proof.
  apply (main_on_run_of _ _ _ (S754_finite true 8388608 (-22)));
    [unfold schedule|]; reflexivity.
Qed.

(** On a buffer of [n] ones, every sum of [0.0f] and [n] twos is the sum
    of some run. *)
Lemma main_on_replicate (n : nat) (s : float32) :
  generalized_sum add (zero :: replicate n two) s ->
  main_on (replicate n one)
    (MkRun (replicate n two) (replicate n two) s (exit_code s)).
Proof.
  intros Hsum.
  assert (Hs : schedule (seq 0 (length (replicate n one))) (length (replicate n one)))
    by (unfold schedule; reflexivity).
  assert (Ht : transform double_it (seq 0 (length (replicate n one))) (replicate n one)
               = replicate n two).
  { rewrite transform_fmap by exact Hs. apply fmap_replicate. }
  pose proof (main_intro (replicate n one) _ (replicate n two) s Hs) as H.
  cbv zeta in H. rewrite Ht in H. apply H. split; [reflexivity|exact Hsum].
Qed.

(** Conversely, every run on a buffer of ones leaves [n] twos and sums
    [0.0f] and [n] twos. *)
Lemma main_on_replicate_inv (n : nat) (r : run) :
  main_on (replicate n one) r ->
  data_transformed r = replicate n two
  /\ data_final r = replicate n two
  /\ generalized_sum add (zero :: replicate n two) (sum r)
  /\ status r = exit_code (sum r).
Proof.
  intros [order data2 s Hs data1 [Hd Hsum]]. cbn [data_transformed data_final sum status].
  assert (Ht : data1 = replicate n two).
  { unfold data1. rewrite transform_fmap by exact Hs. apply fmap_replicate. }
  rewrite Hd, Ht in *. done.
Qed.

(** Every admissible reduction of a non-empty buffer of twos is positive. *)
Lemma sum_of_twos_positive (n : nat) (s : float32) :
  (0 < n)%nat ->
  generalized_sum add (zero :: replicate n two) s -> is_pos s = true.
Proof.
  intros Hn Hsum. apply (generalized_sum_sign _ _ Hsum).
  - apply Forall_cons. split; [reflexivity|]. by apply Forall_replicate.
  - apply Exists_cons_tl. destruct n as [|n]; [lia|]. by apply Exists_cons_hd.
Qed.

(** The sum of power-of-two blocks, the next smaller block on the right. *)
Lemma noncommutative_sum_blocks (k : N) (ks : list N) :
  noncommutative_sum add
    (replicate (N.to_nat (blocks_size (k :: ks))) two) (blocks_sum k ks).
Proof.
  revert k. induction ks as [|k' ks IH]; intros k.
  - cbn [blocks_size foldr blocks_sum]. rewrite N.add_0_r.
    apply noncommutative_sum_block.
  - change (blocks_size (k :: k' :: ks)) with (2 ^ k + blocks_size (k' :: ks))%N.
    rewrite N2Nat.inj_add, replicate_add. cbn [blocks_sum].
    apply ncs_split; [apply noncommutative_sum_block|apply IH].
Qed.

(** Pairwise blocks give exactly 200,000,000. *)
Lemma balanced_sum_admissible :
  generalized_sum add (zero :: replicate (N.to_nat kSize) two) expected_sum.
Proof.
  exists (zero :: replicate (N.to_nat kSize) two). split; [reflexivity|].
  rewrite <- kSize_blocks_size.
  change expected_sum with (add zero (blocks_sum 26 (tail kSize_blocks))).
  apply (ncs_split add [zero]); [apply ncs_one|].
  apply noncommutative_sum_blocks.
Qed.

(** One more [2.0f] added to the running sum of [k] of them. *)
Lemma partial_sum_step (k : Z) :
  0 <= k -> add (partial_sum k) two = partial_sum (k + 1).
Proof.
  intros Hk. unfold partial_sum.
  destruct (Z.leb_spec k 0) as [H0|H0].
  { replace k with 0 by lia. reflexivity. }
  replace (k + 1 <=? 0) with false by (symmetry; apply Z.leb_gt; lia).
  destruct (Z.ltb_spec k (2 ^ 24)) as [H24|H24].
  2: { replace (k + 1 <? 2 ^ 24) with false by (symmetry; apply Z.ltb_ge; lia).
       reflexivity. }
  pose proof (Z.log2_spec k H0) as [Hlo Hhi].
  pose proof (Z.log2_nonneg k) as Hj0.
  assert (Hj : Z.log2 k < 24) by (apply Z.log2_lt_pow2; lia).
  set (j := Z.log2 k) in *.
  rewrite Z.pow_succ_r in Hhi by lia.
  assert (HP : 0 < 2 ^ (23 - j)) by (apply Z.pow_pos_nonneg; lia).
  assert (HQP : 2 ^ j * 2 ^ (23 - j) = 2 ^ 23).
  { rewrite <- Z.pow_add_r by lia. f_equal. lia. }
  change (2 ^ 23) with 8388608 in HQP. change (2 ^ 24) with 16777216 in H24.
  assert (Hm : Z.pos (Z.to_pos (k * 2 ^ (23 - j))) = k * 2 ^ (23 - j))
    by (apply Z2Pos.id; nia).
  destruct (Z.lt_ge_cases (k + 1) (2 * 2 ^ j)) as [Hin|Hout].
  - (* the next sum has the same exponent *)
    assert (Hj' : Z.log2 (k + 1) = j).
    { apply Z.log2_unique; [lia|]. rewrite Z.pow_succ_r by lia. lia. }
    replace (k + 1 <? 2 ^ 24) with true
      by (symmetry; apply Z.ltb_lt; change (2 ^ 24) with 16777216; nia).
    rewrite Hj', add_two_exact.
    + f_equal. rewrite Hm. replace (1 - (j - 22)) with (23 - j) by lia.
      f_equal. ring.
    + lia.
    + rewrite Hm. change (2 ^ 23) with 8388608. nia.
    + rewrite Hm. replace (1 - (j - 22)) with (23 - j) by lia.
      change (2 ^ 24) with 16777216. nia.
  - (* the next sum is the next power of two *)
    assert (Hk1 : k + 1 = 2 * 2 ^ j) by lia.
    assert (Hcarry : Z.pos (Z.to_pos (k * 2 ^ (23 - j))) + 2 ^ (1 - (j - 22)) = 2 ^ 24).
    { rewrite Hm. replace (1 - (j - 22)) with (23 - j) by lia.
      change (2 ^ 24) with 16777216. nia. }
    rewrite add_two_carry by (exact Hcarry || lia).
    destruct (Z.ltb_spec (k + 1) (2 ^ 24)) as [Hlt|Hge].
    + assert (Hj23 : j < 23).
      { destruct (Z.lt_ge_cases j 23) as [|Hge]; [done|].
        assert (2 ^ 23 <= 2 ^ j) by (apply Z.pow_le_mono_r; lia).
        change (2 ^ 23) with 8388608 in *. change (2 ^ 24) with 16777216 in *. lia. }
      assert (Hj' : Z.log2 (k + 1) = j + 1).
      { apply Z.log2_unique; [lia|].
        replace (Z.succ (j + 1)) with (j + 2) by lia.
        rewrite !Z.pow_add_r by lia. change (2 ^ 1) with 2. change (2 ^ 2) with 4.
        lia. }
      rewrite Hj'. replace (j - 22 + 1) with (j + 1 - 22) by lia. f_equal.
      rewrite Hk1. replace (2 * 2 ^ j) with (2 ^ (j + 1)) by (rewrite Z.pow_add_r; lia).
      rewrite <- Z.pow_add_r by lia.
      replace (j + 1 + (23 - (j + 1))) with 23 by lia. reflexivity.
    + assert (j = 23).
      { change (2 ^ 24) with 16777216 in Hge.
        assert (8388608 <= 2 ^ j) by lia.
        destruct (Z.le_gt_cases 23 j) as [|Hlt]; [lia|].
        assert (2 ^ j <= 2 ^ 22) by (apply Z.pow_le_mono_r; lia).
        change (2 ^ 22) with 4194304 in *. lia. }
      subst j. replace (Z.log2 k) with 23 by done. reflexivity.
Qed.

(** Left-to-right accumulation of [n] copies of [2.0f]. *)
Lemma accumulate_twos (n : nat) :
  accumulate add (replicate n two) zero = partial_sum (Z.of_nat n).
Proof.
  unfold accumulate. induction n as [|n IH]; [reflexivity|].
  rewrite replicate_S_end, foldl_app, IH. cbn [foldl].
  rewrite partial_sum_step by lia. f_equal. lia.
Qed.

(** On the buffer of [main], left-to-right accumulation ends at [2^25]:
    from the [2^24]-th element on, each [2.0f] is lost to rounding. *)
Lemma accumulate_saturates :
  accumulate add (replicate (N.to_nat kSize) two) zero = saturated_sum.
Proof. rewrite accumulate_twos, N_nat_Z. reflexivity. Qed.

Lemma balanced_run_main : main balanced_run.
Proof. apply main_on_replicate, balanced_sum_admissible. Qed.

(** The initial buffer, unfolded once. *)
Lemma data_init_eq : data_init = replicate (N.to_nat kSize) one.
Proof. exact (@eq_refl _ (replicate (N.to_nat kSize) one)). Qed.

Lemma main_inv (r : run) :
  main r ->
  data_transformed r = replicate (N.to_nat kSize) two
  /\ data_final r = replicate (N.to_nat kSize) two
  /\ generalized_sum add (zero :: replicate (N.to_nat kSize) two) (sum r)
  /\ status r = exit_code (sum r).
Proof.
  unfold main. rewrite data_init_eq. apply main_on_replicate_inv.
Qed.

Lemma main_status_zero (r : run) :
  main r -> gtb (sum r) zero = true /\ status r = 0.
Proof.
  intros (_ & _ & Hsum & Hst)%main_inv.
  assert (Hp : gtb (sum r) zero = true).
  { apply is_pos_gtb_zero, (sum_of_twos_positive _ _ kSize_pos Hsum). }
  split; [exact Hp|]. rewrite Hst. unfold exit_code. by rewrite Hp.
Qed.

(** C3: in every run, on any initial buffer and for any order of the
    element accesses, the transform leaves at index [i] exactly the
    product of the element that was at index [i] and [2.0f], and it does
    not change the length of the buffer. *)
Theorem transform_doubles_each_element (data0 : list float32) (r : run) :
  main_on data0 r ->
  (forall i : nat, data_transformed r !! i = (fun x => mul x two) <$> data0 !! i)
  /\ length (data_transformed r) = length data0.
Proof.
  intros [order data2 s Hs data1 _]. cbn [data_transformed].
  unfold data1. rewrite transform_fmap by exact Hs. split.
  - intros i. apply list_lookup_fmap.
  - apply length_fmap.
Qed.

Lemma transform_doubles_each_element_witness :
  main_on small_data small_run
  /\ (forall i : nat,
        data_transformed small_run !! i = (fun x => mul x two) <$> small_data !! i)
  /\ length (data_transformed small_run) = length small_data.
Proof.
  split; [exact small_run_main|].
  exact (transform_doubles_each_element small_data small_run small_run_main).
Defined.

Example exit_code_values :
  exit_code two = 0 /\ exit_code zero = 1 /\ exit_code (S754_zero true) = 1
  /\ exit_code S754_nan = 1 /\ exit_code (S754_infinity false) = 0
  /\ exit_code (S754_infinity true) = 1 /\ exit_code (of_Z (-2)) = 1.
Proof. repeat split. Qed.

(** C2: the exit code is a function of the sign of the reduced sum alone:
    0 when the sum is strictly positive, 1 in every other case (zero,
    negative, NaN), on any initial buffer; no other exit code exists. *)
Theorem exit_code_by_sign (data0 : list float32) (r : run) :
  main_on data0 r ->
  status r = exit_code (sum r)
  /\ (strictly_positive (sum r) = true -> status r = 0)
  /\ (strictly_positive (sum r) = false -> status r = 1)
  /\ (status r = 0 \/ status r = 1)
  /\ (forall s : float32, exit_code s = if strictly_positive s then 0 else 1).
Proof.
  intros [order data2 s Hs data1 _]. cbn [sum status].
  assert (Hf : forall x, exit_code x = if strictly_positive x then 0 else 1).
  { intros x. unfold exit_code. by rewrite gtb_zero_strictly_positive. }
  split; [reflexivity|]. rewrite Hf.
  destruct (strictly_positive s); repeat split; auto; discriminate.
Qed.

Lemma exit_code_by_sign_witness :
  main_on negative_data negative_run
  /\ strictly_positive (sum negative_run) = false
  /\ status negative_run = 1.
Proof.
  split; [exact negative_run_main|]. split; [reflexivity|].
  exact (proj1 (proj2 (proj2
           (exit_code_by_sign negative_data negative_run negative_run_main)))
           eq_refl).
Defined.

(** C10: the reduction only reads the buffer: after it every index holds
    the value the transform left there, which is [2.0f], and the buffer
    still has 100,000,000 elements. *)
Theorem reduce_leaves_buffer (r : run) :
  main r ->
  (forall i : nat, data_final r !! i = data_transformed r !! i)
  /\ (forall i : nat, (i < N.to_nat kSize)%nat -> data_final r !! i = Some two)
  /\ N.of_nat (length (data_final r)) = 100000000%N.
Proof.
  intros (Ht & Hf & _ & _)%main_inv. rewrite Hf, Ht. split; [done|]. split.
  - intros i Hi. by apply lookup_replicate_2.
  - rewrite length_replicate, N2Nat.id. reflexivity.
Qed.

Lemma reduce_leaves_buffer_witness :
  main balanced_run
  /\ N.of_nat (length (data_final balanced_run)) = 100000000%N.
Proof.
  split; [exact balanced_run_main|].
  exact (proj2 (proj2 (reduce_leaves_buffer balanced_run balanced_run_main))).
Defined.

End StdparTestSpec.

(** * Running programs *)

Module InteractionFacts.
Import Interaction.

Section Exec.
Context {E : Type -> Type} {W : Type}.
Variable h : handler E W.

(** Running [p] and then [f] runs [p], and [f] on its result when no
    call of [p] faulted. *)
Lemma exec_bind {R S} (p : prog E R) (f : R -> prog E S) (w : W) :
  exec h (bind p f) w
  = match exec h p w with
    | (t, None) => (t, None)
    | (t, Some (r, w')) =>
        let '(t', res) := exec h (f r) w' in (t ++ t', res)
    end.
Proof.
  revert w. induction p as [r | X e k IH]; intros w; cbn.
  - by destruct (exec h (f r) w).
  - destruct (h X e w) as [[x w']|]; [|done].
    rewrite IH. destruct (exec h (k x) w') as [t [[r w'']|]]; [|done].
    by destruct (exec h (f r) w'').
Qed.

End Exec.

End InteractionFacts.

(** * gpu_validation/tests/palabos_minimal.cpp: properties *)

Module PalabosMinimalSpec.
Import Interaction InteractionFacts PalabosMinimal.

Example counting_library_run :
  exec counting_library (main N N 3 ["palabos_minimal"; "-x"; "y"]%string) 5%N
  = (Call (plbInit 3 ["palabos_minimal"; "-x"; "y"]%string)
       :: expected_calls N N 7%N 9%N,
     Some (0, 100%N)).
Proof. vm_compute. reflexivity. Qed.

Example faulting_library_run :
  exec faulting_library (main N N 1 ["palabos_minimal"]%string) 0%N
  = ([Call (plbInit 1 ["palabos_minimal"]%string);
      Call (AcceleratedBGKdynamics 1.0%float);
      Call (MultiBlockLattice3D 100 100 100 7%N);
      Call (initialize 9%N)],
     None).
Proof. vm_compute. reflexivity. Qed.

Section Library.
Context {Dyn Lat W : Type}.
Variable h : handler (plbE Dyn Lat) W.

(** One turn of the loop. *)
Lemma collide_loop_turn (lattice : Lat) (i : Z) :
  collide_loop Dyn Lat lattice i
  = if i <? iterations
    then Vis (collideAndStream lattice) (fun _ => collide_loop Dyn Lat lattice (i + 1))
    else Ret tt.
Proof.
  rewrite collide_loop_equation_1. unfold collide_loop_unfold_clause_1.
  destruct (inspect (i <? iterations)) as [[] Hi]; by rewrite Hi.
Qed.

(** From counter value [i] on, the loop makes at most [iterations - i]
    calls, all of them [collideAndStream] on the same lattice, and
    exactly [iterations - i] when none of them faults. *)
Lemma exec_collide_loop (lattice : Lat) (n : nat) (i : Z) (w : W) :
  i = iterations - Z.of_nat n ->
  exists m : nat,
    fst (exec h (collide_loop Dyn Lat lattice i) w)
    = replicate m (Call (collideAndStream lattice))
    /\ (m <= n)%nat
    /\ (is_Some (snd (exec h (collide_loop Dyn Lat lattice i) w)) -> m = n).
Proof.
  revert i w. induction n as [|n IH]; intros i w Hi; rewrite collide_loop_turn.
  - replace (i <? iterations) with false by (symmetry; apply Z.ltb_ge; lia).
    exists 0%nat. cbn. auto.
  - replace (i <? iterations) with true by (symmetry; apply Z.ltb_lt; lia).
    cbn [exec]. destruct (h unit (collideAndStream lattice) w) as [[[] w']|].
    + destruct (IH (i + 1) w' ltac:(lia)) as (m & Ht & Hm & Hres).
      destruct (exec h (collide_loop Dyn Lat lattice (i + 1)) w') as [t res].
      cbn [fst snd] in *. exists (S m). rewrite Ht.
      split; [done|]. split; [lia|]. intros Hsome. by rewrite Hres.
    + exists 1%nat. cbn. split; [done|]. split; [lia|].
      intros [x Hx]. discriminate Hx.
Qed.

(** When no call faults the loop runs to its end. *)
Lemma exec_collide_loop_returns (lattice : Lat) (n : nat) (i : Z) (w : W) :
  (forall X (e : plbE Dyn Lat X) w0, is_Some (h X e w0)) ->
  i = iterations - Z.of_nat n ->
  exists w' : W,
    exec h (collide_loop Dyn Lat lattice i) w
    = (replicate n (Call (collideAndStream lattice)), Some (tt, w')).
Proof.
  intros Hret. revert i w.
  induction n as [|n IH]; intros i w Hi; rewrite collide_loop_turn.
  - replace (i <? iterations) with false by (symmetry; apply Z.ltb_ge; lia).
    by exists w.
  - replace (i <? iterations) with true by (symmetry; apply Z.ltb_lt; lia).
    cbn [exec]. destruct (Hret _ (collideAndStream lattice) w) as [[[] w1] ->].
    destruct (IH (i + 1) w1 ltac:(lia)) as [w' ->]. by exists w'.
Qed.

Lemma filter_collide_replicate (lattice : Lat) (m : nat) :
  List.filter (is_collide Dyn Lat) (replicate m (Call (collideAndStream lattice)))
  = replicate m (Call (collideAndStream lattice)).
Proof. induction m as [|m IH]; [done|]. cbn. by rewrite IH. Qed.

(** The calls of [simulate], whatever the library answers: the arguments
    are the program's constants, there are at most 100 collide-and-stream
    calls, and a run that completes has made the expected calls and
    returns 0. *)
Lemma exec_simulate (w : W) :
  forallb (uses_constants Dyn Lat) (fst (exec h (simulate Dyn Lat) w)) = true
  /\ (length (List.filter (is_collide Dyn Lat) (fst (exec h (simulate Dyn Lat) w)))
      <= 100)%nat
  /\ (forall code w', snd (exec h (simulate Dyn Lat) w) = Some (code, w') ->
      code = 0
      /\ exists dynamics lattice,
          fst (exec h (simulate Dyn Lat) w) = expected_calls Dyn Lat dynamics lattice).
Proof.
  unfold simulate, mbind, prog_bind. cbn [bind trigger exec].
  destruct (h _ (AcceleratedBGKdynamics omega) w) as [[d w1]|];
    [|by repeat split; cbn; try lia].
  cbn [bind exec].
  destruct (h _ (MultiBlockLattice3D nx ny nz d) w1) as [[lat w2]|];
    [|by repeat split; cbn; try lia].
  cbn [bind exec].
  destruct (h _ (initialize lat) w2) as [[[] w3]|];
    [|by repeat split; cbn; try lia].
  cbn [bind]. rewrite exec_bind.
  destruct (exec_collide_loop lat 100 0 w3 eq_refl) as (m & Ht & Hm & Hres).
  destruct (exec h (collide_loop Dyn Lat lat 0) w3) as [t [[[] w4]|]];
    cbn [fst snd exec] in *; subst t.
  - rewrite (Hres ltac:(eauto)), app_nil_r. split; [reflexivity|].
    split; [cbn; lia|].
    intros code w' [= <- <-]. split; [done|]. by exists d, lat.
  - split; [|split; [|done]].
    + cbn [forallb uses_constants andb].
      clear. induction m as [|m IH]; [done|exact IH].
    + cbn [List.filter is_collide]. rewrite filter_collide_replicate, length_replicate.
      exact Hm.
Qed.

End Library.

(** C7: when every call into the library returns, [main] terminates with
    exit code 0 after making, in this order, one [plbInit] call, the
    construction of the dynamics and of the 100x100x100 lattice, exactly
    one [initialize] and exactly 100 [collideAndStream] calls. *)
Theorem main_terminates_in_fixed_order {Dyn Lat W : Type}
    (h : handler (plbE Dyn Lat) W) (argc : Z) (argv : list string) (w : W) :
  (forall X (e : plbE Dyn Lat X) w0, is_Some (h X e w0)) ->
  exists dynamics lattice w',
    exec h (main Dyn Lat argc argv) w
    = (Call (plbInit argc argv) :: expected_calls Dyn Lat dynamics lattice,
       Some (0, w'))
    /\ length (List.filter (is_initialize Dyn Lat)
                 (expected_calls Dyn Lat dynamics lattice)) = 1%nat
    /\ length (List.filter (is_collide Dyn Lat)
                 (expected_calls Dyn Lat dynamics lattice)) = 100%nat.
Proof.
  intros Hret.
  unfold main, simulate, mbind, prog_bind. cbn [bind trigger exec].
  destruct (Hret _ (plbInit argc argv) w) as [[args w0] ->]. cbn [bind exec].
  destruct (Hret _ (AcceleratedBGKdynamics omega) w0) as [[d w1] ->]. cbn [bind exec].
  destruct (Hret _ (MultiBlockLattice3D nx ny nz d) w1) as [[lat w2] ->]. cbn [bind exec].
  destruct (Hret _ (initialize lat) w2) as [[[] w3] ->]. cbn [bind].
  rewrite exec_bind.
  destruct (exec_collide_loop_returns h lat 100 0 w3 Hret eq_refl) as [w4 ->].
  cbn [exec]. rewrite app_nil_r.
  exists d, lat, w4. split; [reflexivity|]. split; reflexivity.
Qed.

Lemma counting_library_returns :
  forall X (e : plbE N N X) w0, is_Some (counting_library X e w0).
Proof. intros X [] w0; eexists; reflexivity. Qed.

Lemma main_terminates_in_fixed_order_witness :
  exists dynamics lattice w',
    exec counting_library (main N N 1 ["palabos_minimal"]%string) 0%N
    = (Call (plbInit 1 ["palabos_minimal"]%string)
         :: expected_calls N N dynamics lattice,
       Some (0, w'))
    /\ length (List.filter (is_initialize N N)
                 (expected_calls N N dynamics lattice)) = 1%nat
    /\ length (List.filter (is_collide N N)
                 (expected_calls N N dynamics lattice)) = 100%nat.
Proof.
  exact (main_terminates_in_fixed_order counting_library 1
           ["palabos_minimal"]%string 0%N counting_library_returns).
Defined.

(** C6: the lattice dimensions (100, 100, 100), the relaxation parameter
    (1.0) and the iteration count (100) are constants of the program; in
    every completed run, whatever the library did, the calls carry these
    constants, there are 100 collide-and-stream calls, and the only
    result is the exit code 0. *)
Theorem constants_and_exit_code {Dyn Lat W : Type}
    (h : handler (plbE Dyn Lat) W) (argc : Z) (argv : list string) (w : W)
    (t : list (call (plbE Dyn Lat))) (code : Z) (w' : W) :
  exec h (main Dyn Lat argc argv) w = (t, Some (code, w')) ->
  code = 0
  /\ forallb (uses_constants Dyn Lat) t = true
  /\ length (List.filter (is_collide Dyn Lat) t) = 100%nat
  /\ (nx, ny, nz) = (100, 100, 100)
  /\ omega = 1.0%float
  /\ iterations = 100.
Proof.
  intros Hrun.
  unfold main, mbind, prog_bind in Hrun. cbn [bind trigger exec] in Hrun.
  destruct (h _ (plbInit argc argv) w) as [[args w0]|]; [|done].
  cbn [bind] in Hrun.
  change (fun x : Z => simulate Dyn Lat) with (fun _ : Z => simulate Dyn Lat) in Hrun.
  destruct (exec_simulate h w0) as (Hc & _ & Hres).
  destruct (exec h (simulate Dyn Lat) w0) as [t0 res] eqn:Hsim.
  cbn [fst snd] in *. injection Hrun as <- ->.
  destruct (Hres code w' eq_refl) as [-> (d & lat & ->)].
  repeat split.
Qed.

Lemma constants_and_exit_code_witness :
  exec counting_library (main N N 3 ["palabos_minimal"; "-x"; "y"]%string) 5%N
  = (Call (plbInit 3 ["palabos_minimal"; "-x"; "y"]%string)
       :: expected_calls N N 7%N 9%N, Some (0, 100%N))
  /\ 0 = 0
  /\ forallb (uses_constants N N)
       (Call (plbInit 3 ["palabos_minimal"; "-x"; "y"]%string)
          :: expected_calls N N 7%N 9%N) = true.
Proof.
  split; [exact counting_library_run|].
  pose proof (constants_and_exit_code counting_library 3
                ["palabos_minimal"; "-x"; "y"]%string 5%N _ 0 100%N
                counting_library_run) as H.
  exact (conj (proj1 H) (proj1 (proj2 H))).
Defined.

(** When every call returns, [simulate] runs to its end and makes the
    expected calls. *)
Lemma exec_simulate_returns {Dyn Lat W : Type}
    (h : handler (plbE Dyn Lat) W) (w0 : W) :
  (forall X (e : plbE Dyn Lat X) w1, is_Some (h X e w1)) ->
  exists dynamics lattice w',
    exec h (simulate Dyn Lat) w0
    = (expected_calls Dyn Lat dynamics lattice, Some (0, w')).
Proof.
  intros Hret. unfold simulate, mbind, prog_bind. cbn [bind trigger exec].
  destruct (Hret _ (AcceleratedBGKdynamics omega) w0) as [[d w1] ->]. cbn [bind exec].
  destruct (Hret _ (MultiBlockLattice3D nx ny nz d) w1) as [[lat w2] ->]. cbn [bind exec].
  destruct (Hret _ (initialize lat) w2) as [[[] w3] ->]. cbn [bind].
  rewrite exec_bind.
  destruct (exec_collide_loop_returns h lat 100 0 w3 Hret eq_refl) as [w4 ->].
  cbn [exec]. rewrite app_nil_r. by exists d, lat, w4.
Qed.

(** C9: [main] hands [argc] and [argv] to [plbInit] as it received them
    and never looks at them again: the rest of the run is [simulate],
    which has no parameter, started in the state [plbInit] left, so two
    invocations with different arguments that [plbInit] leaves in the
    same state continue identically.  For every [argv], every call of
    the run carries the same constants (100, 100, 100 and 1.0) and at
    most 100 collide-and-stream calls are made; a run that completes has
    built the dynamics with 1.0 and the lattice with 100, 100, 100, warmed
    it up once and stepped it exactly 100 times; and a run completes, in
    this way, whenever every call into the library returns. *)
Theorem argv_passed_through {Dyn Lat W : Type}
    (h : handler (plbE Dyn Lat) W) (argc : Z) (argv : list string) (w : W) :
  exec h (main Dyn Lat argc argv) w
  = match h _ (plbInit argc argv) w with
    | None => ([Call (plbInit argc argv)], None)
    | Some (_, w0) =>
        let '(t, res) := exec h (simulate Dyn Lat) w0 in
        (Call (plbInit argc argv) :: t, res)
    end
  /\ forallb (uses_constants Dyn Lat) (fst (exec h (main Dyn Lat argc argv) w)) = true
  /\ (length (List.filter (is_collide Dyn Lat) (fst (exec h (main Dyn Lat argc argv) w)))
      <= 100)%nat
  /\ (forall t code w',
        exec h (main Dyn Lat argc argv) w = (t, Some (code, w')) ->
        code = 0
        /\ exists dynamics lattice,
            t = Call (plbInit argc argv) :: expected_calls Dyn Lat dynamics lattice)
  /\ ((forall X (e : plbE Dyn Lat X) w1, is_Some (h X e w1)) ->
      exists dynamics lattice w',
        exec h (main Dyn Lat argc argv) w
        = (Call (plbInit argc argv) :: expected_calls Dyn Lat dynamics lattice,
           Some (0, w')))
  /\ (forall argc2 argv2 w2,
        snd <$> h _ (plbInit argc argv) w = snd <$> h _ (plbInit argc2 argv2) w2 ->
        tail (fst (exec h (main Dyn Lat argc argv) w))
        = tail (fst (exec h (main Dyn Lat argc2 argv2) w2))
        /\ snd (exec h (main Dyn Lat argc argv) w)
           = snd (exec h (main Dyn Lat argc2 argv2) w2)).
Proof.
  assert (Hexec : forall argc argv w, exec h (main Dyn Lat argc argv) w
    = match h _ (plbInit argc argv) w with
      | None => ([Call (plbInit argc argv)], None)
      | Some (_, w0) =>
          let '(t, res) := exec h (simulate Dyn Lat) w0 in
          (Call (plbInit argc argv) :: t, res)
      end).
  { intros a v w1. unfold main, mbind, prog_bind. cbn [bind trigger exec].
    destruct (h _ (plbInit a v) w1) as [[args w0]|]; reflexivity. }
  split; [apply Hexec|]. split; [|split; [|split; [|split]]].
  - rewrite Hexec.
    destruct (h _ (plbInit argc argv) w) as [[args w0]|]; [|reflexivity].
    destruct (exec_simulate h w0) as (Hc & _ & _).
    by destruct (exec h (simulate Dyn Lat) w0) as [t0 res].
  - rewrite Hexec.
    destruct (h _ (plbInit argc argv) w) as [[args w0]|]; [|cbn; lia].
    destruct (exec_simulate h w0) as (_ & Hn & _).
    by destruct (exec h (simulate Dyn Lat) w0) as [t0 res].
  - intros t code w'. rewrite Hexec.
    destruct (h _ (plbInit argc argv) w) as [[args w0]|]; [|done].
    destruct (exec_simulate h w0) as (_ & _ & Hres).
    destruct (exec h (simulate Dyn Lat) w0) as [t0 res]. cbn [fst snd] in Hres.
    intros [= <- ->]. destruct (Hres code w' eq_refl) as [-> (d & lat & ->)].
    split; [done|]. by exists d, lat.
  - intros Hret. rewrite Hexec.
    destruct (Hret _ (plbInit argc argv) w) as [[args w0] ->].
    destruct (exec_simulate_returns h w0 Hret) as (d & lat & w' & ->).
    by exists d, lat, w'.
  - intros argc2 argv2 w2 Hsame. rewrite !Hexec.
    destruct (h _ (plbInit argc argv) w) as [[args w0]|],
             (h _ (plbInit argc2 argv2) w2) as [[args2 w02]|];
      try done.
    injection Hsame as ->.
    by destruct (exec h (simulate Dyn Lat) w02) as [t0 res].
Qed.

Lemma argv_passed_through_witness :
  exists dynamics lattice w',
    exec counting_library (main N N 3 ["palabos_minimal"; "-x"; "y"]%string) 5%N
    = (Call (plbInit 3 ["palabos_minimal"; "-x"; "y"]%string)
         :: expected_calls N N dynamics lattice,
       Some (0, w')).
Proof.
  exact (proj1 (proj2 (proj2 (proj2 (proj2
           (argv_passed_through counting_library 3
              ["palabos_minimal"; "-x"; "y"]%string 5%N)))))
           counting_library_returns).
Defined.

End PalabosMinimalSpec.

(** * test-project/main.cpp: properties *)

Module DependencyTestSpec.
Import Interaction InteractionFacts DependencyTest.

Example occurrences_overlapping :
  occurrences "aa" "aaa" = [0; 1]%nat /\ occurrences "b" "aaa" = @nil nat.
Proof. split; reflexivity. Qed.

Example print_line_writes :
  snd (exec os (print_line "ok") (start bare_environment))
  = Some (tt, MkProcess bare_environment [] ("ok" +:+ newline) 1).
Proof. reflexivity. Qed.

(** A program that asks before it answers does depend on where it runs. *)
Example probing_program_differs :
  let probe : prog ioE Z :=
    Vis (dlopen "libpalabos.so") (fun ok : bool => Ret (if ok then 0 else 1)) in
  snd (exec os probe (start bare_environment))
  <> snd (exec os probe (start full_environment)).
Proof. cbn. discriminate. Qed.

(** The run of [main], in any environment: seven lines written and
    flushed, nothing read, exit code 0. *)
Lemma exec_main (e : environment) :
  exec os main (start e)
  = (concat (map (fun s => [Call (cout s); Call endl]) confirmation_strings),
     Some (0, MkProcess e (stdin e) static_text 7)).
Proof. reflexivity. Qed.

(** C4: every run exits with code 0 and leaves on standard output the
    confirmation strings, one per line: each of them occurs exactly once
    in the output, and in the order of the list. *)
Theorem confirmations_once_in_order (e : environment) :
  run e = Some (static_text, 0)
  /\ static_text
     = foldr (fun s acc => s +:+ newline +:+ acc) ""%string confirmation_strings
  /\ Forall (fun s => length (occurrences s static_text) = 1%nat) confirmation_strings
  /\ increasing (concat (map (fun s => occurrences s static_text) confirmation_strings))
     = true
  /\ NoDup confirmation_strings.
Proof.
  split; [reflexivity|]. split; [reflexivity|]. split.
  - unfold confirmation_strings. repeat constructor.
  - split; [reflexivity|].
    apply (bool_decide_unpack _). vm_compute. reflexivity.
Qed.

(** C5: the run does not depend on its surroundings: in any two
    environments [main] makes the same calls, all of them writes to
    standard output, and ends with the same text and the exit code 0. *)
Theorem output_independent_of_environment (e1 e2 : environment) :
  run e1 = run e2
  /\ run e1 = Some (static_text, 0)
  /\ fst (exec os main (start e1)) = fst (exec os main (start e2))
  /\ writes_only (fst (exec os main (start e1))) = true.
Proof.
  unfold run. rewrite !exec_main. repeat split.
Qed.

End DependencyTestSpec.

(** * More facts about binary32: exact products and sums *)

Module Binary32Exact.
Import Binary32 Binary32Facts.

Lemma digits2_pos_shift (M m0 : positive) (n : Z) :
  0 <= n -> Z.pos M = Z.pos m0 * 2 ^ n ->
  Z.pos (digits2_pos M) = Z.pos (digits2_pos m0) + n.
Proof.
  intros Hn HM. apply digits2_pos_unique. rewrite HM.
  pose proof (digits2_pos_bounds m0) as [Hlo Hhi].
  set (d := Z.pos (digits2_pos m0)) in *.
  assert (Hd : 0 < d) by (unfold d; lia).
  replace (d + n - 1) with (d - 1 + n) by lia.
  rewrite !Z.pow_add_r by lia.
  assert (0 < 2 ^ n) by (apply Z.pow_pos_nonneg; lia). nia.
Qed.

(** Rounding a mantissa that is a canonical mantissa [m0] followed by [n]
    zero bits returns [m0] with the exponent raised by [n], or overflows. *)
Lemma binary_round_aux_canonical (s : bool) (M m0 : positive) (e0 n : Z) :
  0 <= n ->
  Z.pos M = Z.pos m0 * 2 ^ n ->
  canonical_mantissa prec emax m0 (e0 + n) = true ->
  binary_round_aux prec emax s (Z.pos M) e0 loc_Exact
  = if e0 + n <=? emax - prec then S754_finite s m0 (e0 + n) else S754_infinity s.
Proof.
  intros Hn HM Hcan. apply Z.eqb_eq in Hcan.
  pose proof (digits2_pos_shift M m0 n Hn HM) as HdM.
  unfold binary_round_aux, shr_fexp, Zdigits2. rewrite HdM.
  replace (Z.pos (digits2_pos m0) + n + e0) with (Z.pos (digits2_pos m0) + (e0 + n)) by lia.
  rewrite Hcan. replace (e0 + n - e0) with n by lia.
  cbn [shr_record_of_loc]. unfold shr at 1.
  assert (Hshift : (match n with
            | Z.pos p => (SpecFloat.iter_pos shr_1 p (Build_shr_record (Z.pos M) false false), e0 + n)
            | _ => (Build_shr_record (Z.pos M) false false, e0)
            end) = (Build_shr_record (Z.pos m0) false false, e0 + n)).
  { destruct n as [|p|p]; [| |lia].
    - rewrite Z.pow_0_r, Z.mul_1_r in HM. rewrite HM. f_equal. lia.
    - rewrite HM, iter_shr_1_exact by lia. reflexivity. }
  rewrite Hshift. cbn [shr_m loc_of_shr_record round_nearest_even].
  rewrite Hcan, Z.sub_diag. cbn [shr_record_of_loc shr shr_m]. reflexivity.
Qed.

(** A valid finite float is normal, with a 24-bit mantissa, or subnormal,
    with the smallest exponent. *)
Lemma valid_finite_cases (s : bool) (m : positive) (e : Z) :
  valid_binary prec emax (S754_finite s m e) = true ->
  e <= emax - prec
  /\ ((Z.pos (digits2_pos m) = 24 /\ emin <= e)
      \/ (Z.pos (digits2_pos m) < 24 /\ e = emin)).
Proof.
  cbn [valid_binary]. unfold bounded, canonical_mantissa, fexp.
  intros [Hc He]%andb_prop. apply Z.eqb_eq in Hc. apply Z.leb_le in He.
  unfold emin, SpecFloat.emin, prec, emax in *. lia.
Qed.

Lemma double_it_finite (s : bool) (m : positive) (e : Z) :
  StdparTest.double_it (S754_finite s m e)
  = binary_round_aux prec emax s (Z.pos (m * 8388608)) (e + -22) loc_Exact.
Proof. unfold StdparTest.double_it, mul, two, SFmul. by destruct s. Qed.

(** On a valid float, multiplication by [2.0f] never rounds: a normal
    float keeps its mantissa and gains one in the exponent (or overflows
    to infinity at the largest exponent), a subnormal float doubles its
    mantissa, and zeros, infinities and NaN are returned as they are. *)
Lemma double_it_valid (x : float32) :
  StdparTest.valid x = true -> StdparTest.double_it x = StdparTest.doubled x.
Proof.
  destruct x as [[]|[]| |s m e]; try reflexivity.
  intros Hv. destruct (valid_finite_cases s m e Hv) as [Hmax [[Hd He]|[Hd He]]];
    rewrite double_it_finite; unfold StdparTest.doubled.
  - rewrite Hd, Z.eqb_refl.
    replace (e + 1) with (e + -22 + 23) by lia.
    apply binary_round_aux_canonical; [lia| |].
    + rewrite Pos2Z.inj_mul. reflexivity.
    + unfold canonical_mantissa, fexp. rewrite Hd. apply Z.eqb_eq.
      unfold emin, SpecFloat.emin, prec, emax in *. lia.
  - replace (Z.pos (digits2_pos m) =? 24) with false by (symmetry; apply Z.eqb_neq; lia).
    subst e.
    etransitivity;
      [apply (binary_round_aux_canonical s (m * 8388608) m~0 (emin + -22) 22)|reflexivity].
    + lia.
    + rewrite Pos2Z.inj_mul, (Pos2Z.inj_xO m). change (Z.pos 8388608) with (2 * 2 ^ 22). ring.
    + unfold canonical_mantissa, fexp. cbn [digits2_pos]. rewrite Pos2Z.inj_succ.
      apply Z.eqb_eq. unfold emin, SpecFloat.emin, prec, emax in *. lia.
Qed.

Lemma doubled_valid (x : float32) :
  StdparTest.valid x = true -> StdparTest.valid (StdparTest.doubled x) = true.
Proof.
  destruct x as [[]|[]| |s m e]; try reflexivity.
  intros Hv. destruct (valid_finite_cases s m e Hv) as [Hmax [[Hd He]|[Hd He]]];
    unfold StdparTest.doubled.
  - rewrite Hd, Z.eqb_refl.
    destruct (Z.leb_spec (e + 1) (emax - prec)) as [Hle|Hgt]; [|reflexivity].
    unfold StdparTest.valid. cbn [valid_binary].
    unfold bounded, canonical_mantissa, fexp. rewrite Hd.
    apply andb_true_intro. split; [apply Z.eqb_eq|apply Z.leb_le];
      unfold emin, SpecFloat.emin, prec, emax in *; lia.
  - replace (Z.pos (digits2_pos m) =? 24) with false by (symmetry; apply Z.eqb_neq; lia).
    unfold StdparTest.valid. cbn [valid_binary].
    unfold bounded, canonical_mantissa, fexp. cbn [digits2_pos].
    rewrite Pos2Z.inj_succ. subst e.
    apply andb_true_intro. split; [apply Z.eqb_eq|apply Z.leb_le];
      unfold emin, SpecFloat.emin, prec, emax in *; lia.
Qed.

(** Doubling keeps a positive float positive and a non-negative one
    non-negative. *)
Lemma doubled_is_pos (x : float32) :
  is_pos x = true -> is_pos (StdparTest.doubled x) = true.
Proof.
  destruct x as [[]|[]| |[] m e]; try done. cbn [is_pos]. intros He%Z.leb_le.
  unfold StdparTest.doubled.
  destruct (Z.pos (digits2_pos m) =? 24); [|by apply Z.leb_le].
  destruct (e + 1 <=? emax - prec); [|reflexivity]. apply Z.leb_le. lia.
Qed.

Lemma doubled_is_nonneg (x : float32) :
  is_nonneg x = true -> is_nonneg (StdparTest.doubled x) = true.
Proof.
  destruct x as [[]|[]| |[] m e]; try done. intros Hx.
  pose proof (doubled_is_pos _ Hx) as H.
  unfold is_nonneg. by destruct (StdparTest.doubled _) as [[]| | |].
Qed.

End Binary32Exact.

(** * gpu_validation/tests/stdpar_test.cpp: further properties *)

Module StdparTestMore.
Import Binary32 Binary32Facts Binary32Exact.
Import StdAlgorithm StdAlgorithmFacts StdparTest StdparTestSpec.

Example doubled_edges :
  doubled smallest_subnormal = S754_finite false 2 (-149)
  /\ doubled largest_finite = S754_infinity false
  /\ double_it smallest_subnormal = doubled smallest_subnormal
  /\ double_it largest_finite = doubled largest_finite
  /\ double_it (S754_zero true) = S754_zero true.
Proof. repeat split. Qed.

Example partial_sum_values :
  partial_sum 1 = two /\ partial_sum 3 = of_Z 6
  /\ partial_sum 16777215 = of_Z 33554430
  /\ partial_sum 16777216 = of_Z 33554432
  /\ partial_sum 16777217 = of_Z 33554432.
Proof. repeat split. Qed.

(** ** Exact sums of two finite floats *)

Lemma add_finite_exact (ma mb m0 : positive) (ea eb n : Z) :
  0 <= n ->
  Z.pos ma * 2 ^ (ea - Z.min ea eb) + Z.pos mb * 2 ^ (eb - Z.min ea eb)
  = Z.pos m0 * 2 ^ n ->
  2 ^ 23 <= Z.pos m0 < 2 ^ 24 ->
  emin <= Z.min ea eb -> Z.min ea eb + n <= emax - prec ->
  add (S754_finite false ma ea) (S754_finite false mb eb)
  = S754_finite false m0 (Z.min ea eb + n).
Proof.
  intros Hn HM Hm0 Hmin Hmax. unfold add, SFadd. cbn [cond_Zopp].
  set (ez := Z.min ea eb) in *.
  destruct (shl_align_down ma ea ez ltac:(lia)) as [Ha _].
  destruct (shl_align_down mb eb ez ltac:(lia)) as [Hb _].
  change (binary_round prec emax false
            (fst (shl_align ma ea ez) + fst (shl_align mb eb ez))%positive ez
          = S754_finite false m0 (ez + n)).
  apply binary_round_exact; try done.
  by rewrite Pos2Z.inj_add, Ha, Hb.
Qed.

(** ** Partial sums of [2.0f] *)

Lemma log2_small (k : Z) :
  1 <= k < 2 ^ 24 ->
  0 <= Z.log2 k <= 23 /\ 2 ^ Z.log2 k <= k < 2 * 2 ^ Z.log2 k.
Proof.
  intros [H1 H24].
  pose proof (Z.log2_spec k ltac:(lia)) as [Hlo Hhi].
  pose proof (Z.log2_nonneg k) as Hj0.
  assert (Hj : Z.log2 k < 24) by (apply Z.log2_lt_pow2; lia).
  rewrite Z.pow_succ_r in Hhi by lia. lia.
Qed.

Lemma partial_sum_finite (k : Z) :
  1 <= k < 2 ^ 24 ->
  partial_sum k
  = S754_finite false (Z.to_pos (k * 2 ^ (23 - Z.log2 k))) (Z.log2 k - 22).
Proof.
  intros [H1 H24]. unfold partial_sum.
  replace (k <=? 0) with false by (symmetry; apply Z.leb_gt; lia).
  by replace (k <? 2 ^ 24) with true by (symmetry; apply Z.ltb_lt; lia).
Qed.

(** The mantissa of the [k]-th partial sum has 24 bits. *)
Lemma partial_sum_mantissa (k : Z) :
  1 <= k < 2 ^ 24 ->
  Z.pos (Z.to_pos (k * 2 ^ (23 - Z.log2 k))) = k * 2 ^ (23 - Z.log2 k)
  /\ 2 ^ 23 <= k * 2 ^ (23 - Z.log2 k) < 2 ^ 24.
Proof.
  intros Hk. destruct (log2_small k Hk) as [Hj [Hlo Hhi]].
  set (j := Z.log2 k) in *.
  assert (HP : 0 < 2 ^ (23 - j)) by (apply Z.pow_pos_nonneg; lia).
  assert (HQP : 2 ^ j * 2 ^ (23 - j) = 2 ^ 23).
  { rewrite <- Z.pow_add_r by lia. f_equal. lia. }
  change (2 ^ 23) with 8388608 in *. change (2 ^ 24) with 16777216 in *.
  split; [apply Z2Pos.id|]; nia.
Qed.

(** Aligned to an exponent [ez] below its own, the [k]-th partial sum is
    [k * 2^(1 - ez)]: its value is [2 k]. *)
Lemma partial_sum_aligned (k ez : Z) :
  1 <= k < 2 ^ 24 -> ez <= Z.log2 k - 22 ->
  k * 2 ^ (23 - Z.log2 k) * 2 ^ (Z.log2 k - 22 - ez) = k * 2 ^ (1 - ez).
Proof.
  intros Hk Hez. destruct (log2_small k Hk) as [Hj _].
  rewrite <- Z.mul_assoc, <- Z.pow_add_r by lia. do 2 f_equal. lia.
Qed.

Lemma partial_sum_positive (k : Z) :
  1 <= k -> exists m e, partial_sum k = S754_finite false m e.
Proof.
  intros Hk. destruct (Z.lt_ge_cases k (2 ^ 24)) as [Hlt|Hge].
  - rewrite partial_sum_finite by lia. eauto.
  - unfold partial_sum.
    replace (k <=? 0) with false by (symmetry; apply Z.leb_gt; lia).
    replace (k <? 2 ^ 24) with false by (symmetry; apply Z.ltb_ge; lia).
    by exists 8388608%positive, 2.
Qed.

(** Two partial sums add up exactly as long as no more than [2^24]
    elements are involved. *)
Lemma add_partial_sums (a b : Z) :
  0 <= a -> 0 <= b -> a + b <= 2 ^ 24 ->
  add (partial_sum a) (partial_sum b) = partial_sum (a + b).
Proof.
  intros Ha Hb Hab.
  destruct (Z.eq_dec a 0) as [->|Ha0].
  { destruct (Z.eq_dec b 0) as [->|Hb0]; [reflexivity|].
    destruct (partial_sum_positive b ltac:(lia)) as (m & e & Hp).
    rewrite Z.add_0_l, Hp. reflexivity. }
  destruct (Z.eq_dec b 0) as [->|Hb0].
  { destruct (partial_sum_positive a ltac:(lia)) as (m & e & Hp).
    rewrite Z.add_0_r, Hp. reflexivity. }
  assert (Ha' : 1 <= a < 2 ^ 24) by lia.
  assert (Hb' : 1 <= b < 2 ^ 24) by lia.
  rewrite (partial_sum_finite a Ha'), (partial_sum_finite b Hb').
  destruct (partial_sum_mantissa a Ha') as [Hma _].
  destruct (partial_sum_mantissa b Hb') as [Hmb _].
  destruct (log2_small a Ha') as [Hja _]. destruct (log2_small b Hb') as [Hjb _].
  set (ez := Z.min (Z.log2 a - 22) (Z.log2 b - 22)).
  assert (Hsum : Z.pos (Z.to_pos (a * 2 ^ (23 - Z.log2 a))) * 2 ^ (Z.log2 a - 22 - ez)
                 + Z.pos (Z.to_pos (b * 2 ^ (23 - Z.log2 b))) * 2 ^ (Z.log2 b - 22 - ez)
                 = (a + b) * 2 ^ (1 - ez)).
  { rewrite Hma, Hmb, !partial_sum_aligned by (unfold ez; lia). ring. }
  assert (HJa : Z.log2 a <= Z.log2 (a + b)) by (apply Z.log2_le_mono; lia).
  assert (HJb : Z.log2 b <= Z.log2 (a + b)) by (apply Z.log2_le_mono; lia).
  destruct (Z.eq_dec (a + b) (2 ^ 24)) as [Hc|Hc].
  - (* the sum is [2^25] *)
    rewrite Hc in *. change (Z.log2 (2 ^ 24)) with 24 in *.
    change (partial_sum (2 ^ 24)) with (S754_finite false 8388608 2).
    etransitivity;
      [apply (add_finite_exact _ _ 8388608%positive _ _ (2 - ez))
      |f_equal; unfold ez; lia];
      unfold emin, SpecFloat.emin, prec, emax; try (unfold ez; lia).
    fold ez. rewrite Hsum. change (Z.pos 8388608) with (2 ^ 23).
    rewrite <- !Z.pow_add_r by (unfold ez; lia). f_equal. lia.
  - assert (Hc' : 1 <= a + b < 2 ^ 24) by lia.
    rewrite (partial_sum_finite (a + b) Hc').
    destruct (partial_sum_mantissa (a + b) Hc') as [Hmc Hbound].
    destruct (log2_small (a + b) Hc') as [HJ _].
    etransitivity;
      [apply (add_finite_exact _ _ (Z.to_pos ((a + b) * 2 ^ (23 - Z.log2 (a + b))))
                _ _ (Z.log2 (a + b) - 22 - ez))
      |f_equal; unfold ez; lia];
      unfold emin, SpecFloat.emin, prec, emax; try (unfold ez; lia).
    fold ez. rewrite Hsum, Hmc, partial_sum_aligned by (unfold ez; lia).
    reflexivity.
Qed.

(** The value of a partial sum: [2 k], capped at [2^25]. *)
Lemma to_Z_partial_sum (k : Z) :
  0 <= k -> to_Z (partial_sum k) = Some (Z.min (2 * k) 33554432).
Proof.
  intros Hk. destruct (Z.eq_dec k 0) as [->|Hk0]; [reflexivity|].
  destruct (Z.lt_ge_cases k (2 ^ 24)) as [Hlt|Hge].
  2: { unfold partial_sum.
       replace (k <=? 0) with false by (symmetry; apply Z.leb_gt; lia).
       replace (k <? 2 ^ 24) with false by (symmetry; apply Z.ltb_ge; lia).
       change (2 ^ 24) with 16777216 in Hge.
       rewrite Z.min_r by lia. reflexivity. }
  assert (Hk' : 1 <= k < 2 ^ 24) by lia.
  rewrite (partial_sum_finite k Hk'). unfold to_Z. cbn [cond_Zopp].
  destruct (partial_sum_mantissa k Hk') as [Hm _].
  destruct (log2_small k Hk') as [Hj _]. rewrite Hm.
  change (2 ^ 24) with 16777216 in Hlt. rewrite Z.min_l by lia.
  set (j := Z.log2 k) in *.
  destruct (Z.leb_spec 0 (j - 22)) as [He|He].
  - f_equal. rewrite <- Z.mul_assoc, <- Z.pow_add_r by lia.
    replace (23 - j + (j - 22)) with 1 by lia. change (2 ^ 1) with 2. ring.
  - replace (23 - j) with (1 + (- (j - 22))) by lia.
    rewrite Z.pow_add_r by lia. change (2 ^ 1) with 2.
    assert (HP : 0 < 2 ^ (- (j - 22))) by (apply Z.pow_pos_nonneg; lia).
    replace (k * (2 * 2 ^ (- (j - 22)))) with (2 * k * 2 ^ (- (j - 22))) by ring.
    rewrite Z.mod_mul by lia. cbn [Z.eqb].
    rewrite Z.div_mul by lia. reflexivity.
Qed.

(** ** Reductions of zeros and twos *)

(** Every grouping of at most [2^24] twos (and any number of zeros) adds
    up to the same float, the partial sum of their number. *)
Lemma noncommutative_sum_exact (l : list float32) (r : float32) :
  noncommutative_sum add l r ->
  Forall (fun x => x = zero \/ x = two) l ->
  Z.of_nat (length (filter (fun x => strictly_positive x = true) l)) <= 2 ^ 24 ->
  r = partial_sum (Z.of_nat (length (filter (fun x => strictly_positive x = true) l))).
Proof.
  induction 1 as [a | l1 l2 a b H1 IH1 H2 IH2]; intros Hall Hn.
  - pose proof (proj1 (Forall_singleton _ _) Hall) as [->| ->]; reflexivity.
  - apply Forall_app in Hall as [Hall1 Hall2].
    rewrite filter_app, length_app, Nat2Z.inj_add in *.
    rewrite (IH1 Hall1), (IH2 Hall2) by lia.
    apply add_partial_sums; lia.
Qed.

Lemma filter_positive_twos (n : nat) :
  length (filter (fun x => strictly_positive x = true) (zero :: replicate n two)) = n.
Proof.
  rewrite filter_cons_False by done.
  induction n as [|n IH]; [done|].
  cbn [replicate]. rewrite filter_cons_True by done. cbn [length]. by rewrite IH.
Qed.

Lemma generalized_sum_exact (n : nat) (r : float32) :
  Z.of_nat n <= 2 ^ 24 ->
  generalized_sum add (zero :: replicate n two) r ->
  r = partial_sum (Z.of_nat n).
Proof.
  intros Hn (l' & Hp & Hs).
  assert (Hlen : length (filter (fun x => strictly_positive x = true) l') = n)
    by (rewrite Hp; apply filter_positive_twos).
  rewrite <- Hlen. apply (noncommutative_sum_exact l' r Hs).
  - rewrite Hp. apply Forall_cons. split; [by left|]. apply Forall_replicate. by right.
  - by rewrite Hlen.
Qed.

(** A reduction of [+0.0f]s is [+0.0f]; a reduction over a NaN is NaN. *)
Lemma noncommutative_sum_zeros (l : list float32) (r : float32) :
  noncommutative_sum add l r -> Forall (fun x => x = zero) l -> r = zero.
Proof.
  induction 1 as [a | l1 l2 a b H1 IH1 H2 IH2]; intros Hall.
  - exact (proj1 (Forall_singleton _ _) Hall).
  - apply Forall_app in Hall as [Hall1 Hall2].
    by rewrite (IH1 Hall1), (IH2 Hall2).
Qed.

Lemma add_nan_l (y : float32) : add S754_nan y = S754_nan.
Proof. reflexivity. Qed.

Lemma add_nan_r (x : float32) : add x S754_nan = S754_nan.
Proof. by destruct x as [[]|[]| |[] m e]. Qed.

Lemma noncommutative_sum_nan (l : list float32) (r : float32) :
  noncommutative_sum add l r -> S754_nan ∈ l -> r = S754_nan.
Proof.
  induction 1 as [a | l1 l2 a b H1 IH1 H2 IH2]; intros Hin.
  - by apply list_elem_of_singleton in Hin.
  - apply elem_of_app in Hin as [Hin|Hin].
    + rewrite (IH1 Hin). apply add_nan_l.
    + rewrite (IH2 Hin). apply add_nan_r.
Qed.

(** ** Runs on arbitrary buffers *)

(** What a run on any buffer consists of. *)
Lemma main_on_inv (data0 : list float32) (r : run) :
  main_on data0 r ->
  data_transformed r = double_it <$> data0
  /\ data_final r = data_transformed r
  /\ generalized_sum add (zero :: (double_it <$> data0)) (sum r)
  /\ status r = exit_code (sum r).
Proof.
  intros [order data2 s Hs data1 [Hd Hsum]].
  cbn [data_transformed data_final sum status].
  assert (Ht : data1 = double_it <$> data0)
    by (unfold data1; by rewrite transform_fmap).
  rewrite Hd, Ht in *. done.
Qed.

Lemma fmap_double_it_valid (data0 : list float32) :
  Forall (fun x => valid x = true) data0 ->
  double_it <$> data0 = doubled <$> data0.
Proof.
  intros Hall. apply Forall_fmap_ext.
  eapply Forall_impl; [exact Hall|]. intros x Hx. by apply double_it_valid.
Qed.

Lemma three_ones_run_main : main_on (replicate 3 one) three_ones_run.
Proof.
  apply (main_on_run_of _ _ _ (of_Z 6)); [|reflexivity].
  unfold schedule. cbn. solve_Permutation.
Qed.

Lemma nan_run_main : main_on nan_data nan_run.
Proof.
  apply (main_on_run_of _ _ _ S754_nan); [|reflexivity].
  unfold schedule. reflexivity.
Qed.

Lemma zero_one_run_main : main_on zero_one_data zero_one_run.
Proof.
  apply (main_on_run_of _ _ _ two); [|reflexivity].
  unfold schedule. cbn. solve_Permutation.
Qed.

Lemma edge_run_main : main_on edge_data edge_run.
Proof.
  apply (main_on_run_of _ _ _ (S754_infinity false)); [|reflexivity].
  unfold schedule. cbn. solve_Permutation.
Qed.

(** X1: on a buffer of valid floats the transform is exact in every run:
    each element is replaced by its double, without rounding (a normal
    float gains one in the exponent, a subnormal one doubles its
    mantissa, the largest exponent overflows to infinity, and zeros,
    infinities and NaN stay), and the buffer holds valid floats again. *)
Theorem transform_is_exact (data0 : list float32) (r : run) :
  Forall (fun x => valid x = true) data0 ->
  main_on data0 r ->
  data_transformed r = doubled <$> data0
  /\ Forall (fun x => valid x = true) (data_transformed r).
Proof.
  intros Hall (Ht & _)%main_on_inv.
  rewrite Ht, fmap_double_it_valid by done. split; [done|].
  apply Forall_fmap. eapply Forall_impl; [exact Hall|].
  intros x Hx. by apply doubled_valid.
Qed.

Lemma transform_is_exact_witness :
  main_on edge_data edge_run
  /\ data_transformed edge_run
     = [S754_finite false 2 (-149); S754_infinity false; two].
Proof.
  split; [exact edge_run_main|].
  exact (proj1 (transform_is_exact edge_data edge_run
                  ltac:(repeat constructor) edge_run_main)).
Defined.

(** X2: for every buffer length [n], the run on [n] ones in which the
    reduction adds the elements one at a time, left to right, ends with
    the sum [2 n] as long as [n <= 2^24], and with 33,554,432 for every
    longer buffer. *)
Theorem accumulate_run_sum (n : nat) :
  main_on (replicate n one) (accumulate_run n)
  /\ sum (accumulate_run n) = accumulate add (data_transformed (accumulate_run n)) zero
  /\ to_Z (sum (accumulate_run n)) = Some (Z.min (2 * Z.of_nat n) 33554432).
Proof.
  split; [|split; [reflexivity|]].
  - apply main_on_replicate.
    exists (zero :: replicate n two). split; [reflexivity|].
    apply accumulate_noncommutative_sum.
  - cbn [accumulate_run sum]. rewrite accumulate_twos.
    apply to_Z_partial_sum. lia.
Qed.

(** X3: on a buffer of at most [2^24] ones the reduction is exact and
    does not depend on the permutation or the grouping: every run ends
    with the sum [2 n], the sum of left-to-right accumulation. *)
Theorem small_buffer_sum_exact (n : nat) (r : run) :
  Z.of_nat n <= 2 ^ 24 ->
  main_on (replicate n one) r ->
  to_Z (sum r) = Some (2 * Z.of_nat n)
  /\ sum r = accumulate add (replicate n two) zero.
Proof.
  intros Hn (_ & _ & Hsum & _)%main_on_replicate_inv.
  rewrite (generalized_sum_exact n _ Hn Hsum). split.
  - rewrite to_Z_partial_sum by lia. f_equal.
    change (2 ^ 24) with 16777216 in Hn. lia.
  - by rewrite accumulate_twos.
Qed.

Lemma small_buffer_sum_exact_witness :
  main_on (replicate 3 one) three_ones_run
  /\ to_Z (sum three_ones_run) = Some 6.
Proof.
  split; [exact three_ones_run_main|].
  exact (proj1 (small_buffer_sum_exact 3 three_ones_run
                  ltac:(vm_compute; discriminate) three_ones_run_main)).
Defined.

(** X4: on a buffer of valid non-negative floats the exit code is 0
    exactly when some element is positive; in particular it is 1 on an
    empty buffer and on a buffer of zeros. *)
Theorem exit_code_zero_iff_positive_element (data0 : list float32) (r : run) :
  Forall (fun x => valid x = true /\ is_nonneg x = true) data0 ->
  main_on data0 r ->
  (status r = 0 <-> Exists (fun x => is_pos x = true) data0).
Proof.
  intros Hall (_ & _ & Hsum & Hst)%main_on_inv.
  assert (Hv : Forall (fun x => valid x = true) data0)
    by (eapply Forall_impl; [exact Hall|]; by intros x [? _]).
  rewrite (fmap_double_it_valid data0 Hv) in Hsum. rewrite Hst. clear Hst.
  destruct (decide (Exists (fun x => is_pos x = true) data0)) as [Hex|Hnex].
  - split; [done|]. intros _.
    assert (Hp : is_pos (sum r) = true).
    { apply (generalized_sum_sign _ _ Hsum).
      - apply Forall_cons. split; [reflexivity|]. apply Forall_fmap.
        eapply Forall_impl; [exact Hall|]. intros x [_ Hx]. by apply doubled_is_nonneg.
      - apply Exists_cons_tl, Exists_fmap.
        eapply Exists_impl; [exact Hex|]. intros x Hx. by apply doubled_is_pos. }
    unfold exit_code. by rewrite (is_pos_gtb_zero _ Hp).
  - split; [|done]. intros Hst. exfalso.
    assert (Hz : Forall (fun x => x = zero) (zero :: (doubled <$> data0))).
    { apply Forall_cons. split; [reflexivity|]. apply Forall_fmap.
      apply not_Exists_Forall in Hnex; [|apply _].
      assert (Hboth : Forall (fun x => (valid x = true /\ is_nonneg x = true)
                                       /\ ~ is_pos x = true) data0)
        by (apply Forall_and; split; assumption).
      eapply Forall_impl; [exact Hboth|].
      intros x [[_ Hx] Hn].
      destruct x as [[]|[]| |[] m e]; try done. }
    destruct Hsum as (l' & Hp & Hs). rewrite <- Hp in Hz.
    rewrite (noncommutative_sum_zeros l' _ Hs Hz) in Hst. discriminate.
Qed.

Lemma exit_code_zero_iff_positive_element_witness :
  main_on zero_one_data zero_one_run /\ status zero_one_run = 0.
Proof.
  split; [exact zero_one_run_main|].
  apply (exit_code_zero_iff_positive_element zero_one_data zero_one_run
           ltac:(repeat constructor) zero_one_run_main).
  apply Exists_cons_tl, Exists_cons_hd. reflexivity.
Defined.

(** X5: a NaN anywhere in the buffer reaches the sum whatever the order
    and grouping, and the exit code is 1. *)
Theorem nan_is_detected (data0 : list float32) (r : run) :
  S754_nan ∈ data0 ->
  main_on data0 r ->
  sum r = S754_nan /\ status r = 1.
Proof.
  intros Hin (_ & _ & (l' & Hp & Hs) & Hst)%main_on_inv.
  assert (Hs' : sum r = S754_nan).
  { apply (noncommutative_sum_nan l' _ Hs). rewrite Hp.
    apply elem_of_cons. right.
    change S754_nan with (double_it S754_nan). by apply list_elem_of_fmap_2. }
  split; [exact Hs'|]. by rewrite Hst, Hs'.
Qed.

Lemma nan_is_detected_witness :
  main_on nan_data nan_run /\ sum nan_run = S754_nan /\ status nan_run = 1.
Proof.
  split; [exact nan_run_main|].
  apply (nan_is_detected nan_data nan_run); [|exact nan_run_main].
  apply elem_of_cons. right. apply elem_of_cons. by left.
Defined.

End StdparTestMore.

(** * gpu_validation/tests/stdpar_test.cpp: the reduction of libstdc++ *)

Module StdparTestNominal.
Import Binary32 Binary32Facts Binary32Exact.
Import StdAlgorithm StdAlgorithmFacts StdparTest StdparTestSpec StdparTestMore.

Example reduce_by_four_small :
  reduce_by_four add (replicate 6 two) zero = of_Z 12
  /\ reduce_by_four add [one; two; of_Z 4; of_Z 8; of_Z 16] zero = of_Z 31
  /\ reduce_by_four add [] zero = zero.
Proof. repeat split. Qed.

Example partial_sum_scaled_values :
  partial_sum_scaled 3 1 = eight
  /\ add (add two two) (add two two) = eight
  /\ partial_sum_scaled 3 16777215 = of_Z 134217720
  /\ partial_sum_scaled 3 16777216 = of_Z 134217728
  /\ partial_sum_scaled 3 25000000 = blockwise_sum
  /\ add blockwise_sum eight = blockwise_sum.
Proof. repeat split. Qed.

(** ** The grouping in blocks of four *)

Section ReduceByFour.
Context {A : Type}.
Variable op : A -> A -> A.

Lemma accumulate_extends (l pre : list A) (acc : A) :
  noncommutative_sum op pre acc ->
  noncommutative_sum op (pre ++ l) (accumulate op l acc).
Proof.
  unfold accumulate. revert pre acc.
  induction l as [|x l IH]; intros pre acc Hpre.
  - by rewrite app_nil_r.
  - cbn [foldl]. replace (pre ++ x :: l) with ((pre ++ [x]) ++ l)
      by (by rewrite <- app_assoc).
    apply IH, ncs_split; [exact Hpre|apply ncs_one].
Qed.

Lemma reduce_by_four_extends (n : nat) (l pre : list A) (acc : A) :
  (length l <= n)%nat ->
  noncommutative_sum op pre acc ->
  noncommutative_sum op (pre ++ l) (reduce_by_four op l acc).
Proof.
  revert l pre acc. induction n as [|n IH]; intros l pre acc Hn Hpre.
  - destruct l; [|cbn in Hn; lia]. by apply accumulate_extends.
  - destruct l as [|a0 [|a1 [|a2 [|a3 rest]]]];
      try (by apply accumulate_extends).
    cbn [reduce_by_four].
    replace (pre ++ a0 :: a1 :: a2 :: a3 :: rest)
      with ((pre ++ [a0; a1; a2; a3]) ++ rest) by (by rewrite <- app_assoc).
    apply IH; [cbn in Hn; lia|].
    apply ncs_split; [exact Hpre|].
    apply (ncs_split op [a0; a1] [a2; a3]);
      apply (ncs_split op [_] [_]); apply ncs_one.
Qed.

(** The grouping in blocks of four is one of the groupings of the
    generalized sum. *)
Lemma reduce_by_four_noncommutative_sum (l : list A) (init : A) :
  noncommutative_sum op (init :: l) (reduce_by_four op l init).
Proof.
  apply (reduce_by_four_extends (length l) l [init]); [done|apply ncs_one].
Qed.

(** On a range of [4 m] equal elements it accumulates [m] block sums. *)
Lemma reduce_by_four_replicate (x : A) (m : nat) (init : A) :
  reduce_by_four op (replicate (4 * m) x) init
  = accumulate op (replicate m (op (op x x) (op x x))) init.
Proof.
  revert init. induction m as [|m IH]; intros init; [reflexivity|].
  replace (4 * S m)%nat with (S (S (S (S (4 * m))))) by lia.
  cbn [replicate reduce_by_four]. rewrite IH. reflexivity.
Qed.
End ReduceByFour.

Lemma libstdcxx_reduce_conforming : conforming libstdcxx_reduce.
Proof.
  intros l init. exists (init :: l). split; [reflexivity|].
  apply reduce_by_four_noncommutative_sum.
Qed.

(** ** Partial sums of a power of two *)

Lemma partial_sum_scaled_positive (p k : Z) :
  1 <= k -> exists m e, partial_sum_scaled p k = S754_finite false m e.
Proof.
  intros Hk. unfold partial_sum_scaled.
  replace (k <=? 0) with false by (symmetry; apply Z.leb_gt; lia).
  destruct (k <? 2 ^ 24); eauto.
Qed.

Lemma partial_sum_scaled_finite (p k : Z) :
  1 <= k < 2 ^ 24 ->
  partial_sum_scaled p k
  = S754_finite false (Z.to_pos (k * 2 ^ (23 - Z.log2 k))) (Z.log2 k - 23 + p).
Proof.
  intros [H1 H24]. unfold partial_sum_scaled.
  replace (k <=? 0) with false by (symmetry; apply Z.leb_gt; lia).
  by replace (k <? 2 ^ 24) with true by (symmetry; apply Z.ltb_lt; lia).
Qed.

Lemma partial_sum_scaled_aligned (p k ez : Z) :
  1 <= k < 2 ^ 24 -> ez <= Z.log2 k - 23 + p ->
  k * 2 ^ (23 - Z.log2 k) * 2 ^ (Z.log2 k - 23 + p - ez) = k * 2 ^ (p - ez).
Proof.
  intros Hk Hez.
  pose proof (partial_sum_aligned k (ez - p + 1) Hk ltac:(lia)) as H.
  replace (Z.log2 k - 22 - (ez - p + 1)) with (Z.log2 k - 23 + p - ez) in H by lia.
  replace (1 - (ez - p + 1)) with (p - ez) in H by lia. exact H.
Qed.

(** Two partial sums of [2^p] add up exactly as long as no more than
    [2^24] summands are involved. *)
Lemma add_partial_sums_scaled (p a b : Z) :
  0 <= p <= 100 -> 0 <= a -> 0 <= b -> a + b <= 2 ^ 24 ->
  add (partial_sum_scaled p a) (partial_sum_scaled p b)
  = partial_sum_scaled p (a + b).
Proof.
  intros Hp Ha Hb Hab.
  destruct (Z.eq_dec a 0) as [->|Ha0].
  { destruct (Z.eq_dec b 0) as [->|Hb0]; [reflexivity|].
    destruct (partial_sum_scaled_positive p b ltac:(lia)) as (m & e & Hq).
    rewrite Z.add_0_l, Hq. reflexivity. }
  destruct (Z.eq_dec b 0) as [->|Hb0].
  { destruct (partial_sum_scaled_positive p a ltac:(lia)) as (m & e & Hq).
    rewrite Z.add_0_r, Hq. reflexivity. }
  assert (Ha' : 1 <= a < 2 ^ 24) by lia.
  assert (Hb' : 1 <= b < 2 ^ 24) by lia.
  rewrite (partial_sum_scaled_finite p a Ha'), (partial_sum_scaled_finite p b Hb').
  destruct (partial_sum_mantissa a Ha') as [Hma _].
  destruct (partial_sum_mantissa b Hb') as [Hmb _].
  destruct (log2_small a Ha') as [Hja _]. destruct (log2_small b Hb') as [Hjb _].
  set (ez := Z.min (Z.log2 a - 23 + p) (Z.log2 b - 23 + p)).
  assert (Hsum : Z.pos (Z.to_pos (a * 2 ^ (23 - Z.log2 a))) * 2 ^ (Z.log2 a - 23 + p - ez)
                 + Z.pos (Z.to_pos (b * 2 ^ (23 - Z.log2 b))) * 2 ^ (Z.log2 b - 23 + p - ez)
                 = (a + b) * 2 ^ (p - ez)).
  { rewrite Hma, Hmb, !partial_sum_scaled_aligned by (unfold ez; lia). ring. }
  assert (HJa : Z.log2 a <= Z.log2 (a + b)) by (apply Z.log2_le_mono; lia).
  assert (HJb : Z.log2 b <= Z.log2 (a + b)) by (apply Z.log2_le_mono; lia).
  destruct (Z.eq_dec (a + b) (2 ^ 24)) as [Hc|Hc].
  - rewrite Hc in *. change (Z.log2 (2 ^ 24)) with 24 in *.
    assert (Hs : partial_sum_scaled p (2 ^ 24) = S754_finite false 8388608 (1 + p))
      by reflexivity.
    rewrite Hs.
    etransitivity;
      [apply (add_finite_exact _ _ 8388608%positive _ _ (1 + p - ez))
      |f_equal; unfold ez; lia];
      unfold emin, SpecFloat.emin, prec, emax; try (unfold ez; lia).
    fold ez. rewrite Hsum. change (Z.pos 8388608) with (2 ^ 23).
    rewrite <- !Z.pow_add_r by (unfold ez; lia). f_equal. lia.
  - assert (Hc' : 1 <= a + b < 2 ^ 24) by lia.
    rewrite (partial_sum_scaled_finite p (a + b) Hc').
    destruct (partial_sum_mantissa (a + b) Hc') as [Hmc Hbound].
    destruct (log2_small (a + b) Hc') as [HJ _].
    etransitivity;
      [apply (add_finite_exact _ _ (Z.to_pos ((a + b) * 2 ^ (23 - Z.log2 (a + b))))
                _ _ (Z.log2 (a + b) - 23 + p - ez))
      |f_equal; unfold ez; lia];
      unfold emin, SpecFloat.emin, prec, emax; try (unfold ez; lia).
    fold ez. rewrite Hsum, Hmc, partial_sum_scaled_aligned by (unfold ez; lia).
    reflexivity.
Qed.

(** One more block sum added to the running sum of [k] of them. *)
Lemma partial_sum_eight_step (k : Z) :
  0 <= k -> add (partial_sum_scaled 3 k) eight = partial_sum_scaled 3 (k + 1).
Proof.
  intros Hk. destruct (Z.le_gt_cases (k + 1) (2 ^ 24)) as [Hle|Hgt].
  - change eight with (partial_sum_scaled 3 1).
    apply add_partial_sums_scaled; lia.
  - unfold partial_sum_scaled.
    replace (k <=? 0) with false by (symmetry; apply Z.leb_gt; lia).
    replace (k + 1 <=? 0) with false by (symmetry; apply Z.leb_gt; lia).
    replace (k <? 2 ^ 24) with false by (symmetry; apply Z.ltb_ge; lia).
    replace (k + 1 <? 2 ^ 24) with false by (symmetry; apply Z.ltb_ge; lia).
    reflexivity.
Qed.

Lemma accumulate_eights (m : nat) :
  accumulate add (replicate m eight) zero = partial_sum_scaled 3 (Z.of_nat m).
Proof.
  unfold accumulate. induction m as [|m IH]; [reflexivity|].
  rewrite replicate_S_end, foldl_app, IH. cbn [foldl].
  rewrite partial_sum_eight_step by lia. f_equal. lia.
Qed.

(** On a buffer of [4 m] twos the libstdc++ reduction is the partial sum
    of [m] eights. *)
Lemma libstdcxx_reduce_twos (m : nat) :
  libstdcxx_reduce (replicate (4 * m) two) zero
  = partial_sum_scaled 3 (Z.of_nat m).
Proof.
  unfold libstdcxx_reduce. rewrite reduce_by_four_replicate.
  change (add (add two two) (add two two)) with eight. apply accumulate_eights.
Qed.

(** On the buffer of [main] it ends at [2^27]: from the [2^24]-th block
    on, each block sum is lost to rounding. *)
Lemma libstdcxx_reduce_kSize :
  libstdcxx_reduce (replicate (N.to_nat kSize) two) zero = blockwise_sum.
Proof.
  assert (Hk : N.to_nat kSize = (4 * N.to_nat 25000000)%nat)
    by (unfold kSize; lia).
  rewrite Hk, libstdcxx_reduce_twos, N_nat_Z. reflexivity.
Qed.

(** ** Runs against one implementation of the reduction *)


Lemma main_using_replicate (impl : list float32 -> float32 -> float32) (n : nat) :
  main_using impl (replicate n one)
    (MkRun (replicate n two) (replicate n two)
       (impl (replicate n two) zero) (exit_code (impl (replicate n two) zero))).
Proof.
  assert (Hs : schedule (seq 0 (length (replicate n one))) (length (replicate n one)))
    by (unfold schedule; reflexivity).
  pose proof (main_using_intro impl (replicate n one) _ Hs) as H.
  cbv zeta in H.
  assert (Ht : transform double_it (seq 0 (length (replicate n one))) (replicate n one)
               = replicate n two).
  { rewrite transform_fmap by exact Hs. apply fmap_replicate. }
  rewrite Ht in H. exact H.
Qed.

(** A run against a conforming reduction is a run of [main_on]. *)
Lemma main_using_main_on (impl : list float32 -> float32 -> float32)
    (data0 : list float32) (r : run) :
  conforming impl -> main_using impl data0 r -> main_on data0 r.
Proof.
  intros Hc [order Hs data1 s]. apply main_intro; [exact Hs|].
  split; [reflexivity|apply Hc].
Qed.


Lemma main_using_run_with (impl : list float32 -> float32 -> float32) :
  main_using impl data_init (run_with (impl (replicate (N.to_nat kSize) two) zero)).
Proof. rewrite data_init_eq. apply main_using_replicate. Qed.

(** The fields of [run_with], without unfolding the buffer. *)
Lemma sum_run_with (s : float32) : sum (run_with s) = s.
Proof. reflexivity. Qed.

Lemma data_transformed_run_with (s : float32) :
  data_transformed (run_with s) = replicate (N.to_nat kSize) two.
Proof. exact (@eq_refl _ (replicate (N.to_nat kSize) two)). Qed.

Lemma libstdcxx_run_main_using : main_using libstdcxx_reduce data_init libstdcxx_run.
Proof.
  unfold libstdcxx_run. rewrite <- libstdcxx_reduce_kSize.
  apply main_using_run_with.
Qed.

Lemma libstdcxx_run_main : main libstdcxx_run.
Proof.
  apply (main_using_main_on libstdcxx_reduce);
    [apply libstdcxx_reduce_conforming|apply libstdcxx_run_main_using].
Qed.

Lemma libstdcxx_run_sum :
  sum libstdcxx_run = libstdcxx_reduce (data_transformed libstdcxx_run) zero.
Proof.
  unfold libstdcxx_run. rewrite sum_run_with, data_transformed_run_with.
  symmetry. exact libstdcxx_reduce_kSize.
Qed.



(** C1, as stated, fails: built against libstdc++, whose reduction adds
    the buffer in blocks of four onto a running sum, the program ends with
    the sum 134,217,728, which is 65,782,272 away from 200,000,000; so the
    reduction is not within 65,000,000 of the expected sum in every run. *)
Lemma sum_not_always_expected :
  (main_using libstdcxx_reduce data_init libstdcxx_run
   /\ main libstdcxx_run
   /\ sum libstdcxx_run = libstdcxx_reduce (data_transformed libstdcxx_run) zero
   /\ to_Z (sum libstdcxx_run) = Some 134217728
   /\ (forall tol : Z,
        tol < 65782272 -> within_tolerance tol (sum libstdcxx_run) = false))
  /\ ~ (forall r : run,
          main_using libstdcxx_reduce data_init r ->
          within_tolerance 65000000 (sum r) = true /\ status r = 0)
  /\ ~ (forall r : run,
          main r -> within_tolerance 65000000 (sum r) = true /\ status r = 0).
Proof.
  assert (Hf : within_tolerance 65000000 blockwise_sum = false) by reflexivity.
  split; [|split].
  - split; [exact libstdcxx_run_main_using|]. split; [exact libstdcxx_run_main|].
    split; [exact libstdcxx_run_sum|]. split; [reflexivity|].
    intros tol Htol. change (sum libstdcxx_run) with blockwise_sum.
    unfold within_tolerance.
    change (to_Z blockwise_sum) with (Some 134217728).
    apply Z.leb_gt. lia.
  - intros H. destruct (H libstdcxx_run libstdcxx_run_main_using) as [Ht _].
    change (sum libstdcxx_run) with blockwise_sum in Ht. congruence.
  - intros H. destruct (H libstdcxx_run libstdcxx_run_main) as [Ht _].
    change (sum libstdcxx_run) with blockwise_sum in Ht. congruence.
Qed.

(** C1, amended: in every run, whatever permutation and grouping the
    reduction uses, the reduced sum is strictly positive and the exit
    code is 0.  The sum itself depends on the grouping: it is 200,000,000
    when power-of-two blocks are added pairwise, and 134,217,728 when the
    buffer is added in blocks of four onto a running sum, as libstdc++
    does. *)
Theorem sum_positive_exit_zero (r : run) :
  main r ->
  strictly_positive (sum r) = true
  /\ status r = 0
  /\ (main balanced_run
      /\ sum balanced_run = add zero (blocks_sum 26 (tail kSize_blocks))
      /\ to_Z (sum balanced_run) = Some 200000000
      /\ within_tolerance 0 (sum balanced_run) = true
      /\ status balanced_run = 0)
  /\ (main libstdcxx_run
      /\ sum libstdcxx_run = libstdcxx_reduce (data_transformed libstdcxx_run) zero
      /\ to_Z (sum libstdcxx_run) = Some 134217728
      /\ status libstdcxx_run = 0)
  /\ sum balanced_run <> sum libstdcxx_run.
Proof.
  intros [Hp Hst]%main_status_zero.
  rewrite gtb_zero_strictly_positive in Hp.
  split; [exact Hp|]. split; [exact Hst|]. split; [|split].
  - split; [exact balanced_run_main|]. repeat split.
  - split; [exact libstdcxx_run_main|].
    split; [exact libstdcxx_run_sum|]. split; reflexivity.
  - change (expected_sum <> blockwise_sum). vm_compute. discriminate.
Qed.

Lemma sum_positive_exit_zero_witness :
  main libstdcxx_run
  /\ strictly_positive (sum libstdcxx_run) = true /\ status libstdcxx_run = 0.
Proof.
  split; [exact libstdcxx_run_main|].
  pose proof (sum_positive_exit_zero libstdcxx_run libstdcxx_run_main) as H.
  exact (conj (proj1 H) (proj1 (proj2 H))).
Defined.



End StdparTestNominal.

(** * gpu_validation/tests/palabos_minimal.cpp: further properties *)

Module PalabosMinimalMore.
Import Interaction InteractionFacts PalabosMinimal PalabosMinimalSpec.

Example bookkeeping_library_run :
  snd (exec bookkeeping_library (main N N 1 ["palabos_minimal"]%string)
         (MkBook 4 [] []))
  = Some (0, MkBook 6 [5%N] (replicate 100 5%N)).
Proof. vm_compute. reflexivity. Qed.

Section Library.
Context {Dyn Lat W : Type}.
Variable h : handler (plbE Dyn Lat) W.

(** The loop from any counter value: [iterations - i] steps, none when
    the counter is already at or beyond [iterations]. *)
Lemma exec_collide_loop_steps (lattice : Lat) (n : nat) (i : Z) (w : W) :
  Z.to_nat (iterations - i) = n ->
  snd (exec h (collide_loop Dyn Lat lattice i) w)
  = (fun w' => (tt, w')) <$> collide_steps h lattice n w
  /\ exists m : nat,
      fst (exec h (collide_loop Dyn Lat lattice i) w)
      = replicate m (Call (collideAndStream lattice))
      /\ (m <= n)%nat
      /\ (is_Some (snd (exec h (collide_loop Dyn Lat lattice i) w)) -> m = n).
Proof.
  revert i w. induction n as [|n IH]; intros i w Hi; rewrite collide_loop_turn.
  - replace (i <? iterations) with false by (symmetry; apply Z.ltb_ge; lia).
    split; [reflexivity|]. exists 0%nat. cbn. auto.
  - replace (i <? iterations) with true by (symmetry; apply Z.ltb_lt; lia).
    cbn [exec collide_steps].
    destruct (h unit (collideAndStream lattice) w) as [[[] w']|].
    + destruct (IH (i + 1) w' ltac:(lia)) as (Hres & m & Ht & Hm & Hsome).
      destruct (exec h (collide_loop Dyn Lat lattice (i + 1)) w') as [t res].
      cbn [fst snd] in *. split; [exact Hres|].
      exists (S m). rewrite Ht. split; [done|]. split; [lia|].
      intros Hs. by rewrite Hsome.
    + split; [reflexivity|]. exists 1%nat. cbn. split; [done|]. split; [lia|].
      intros [x Hx]. discriminate Hx.
Qed.

End Library.

(** X6: started at any counter value [i], the loop performs
    [iterations - i] collide-and-stream steps on the lattice it was given
    and nothing else; at or beyond [iterations] (and only then) it makes
    no call.  A step that faults ends the loop without a result. *)
Theorem collide_loop_from_any_counter {Dyn Lat W : Type}
    (h : handler (plbE Dyn Lat) W) (lattice : Lat) (i : Z) (w : W) :
  snd (exec h (collide_loop Dyn Lat lattice i) w)
  = (fun w' => (tt, w')) <$> collide_steps h lattice (Z.to_nat (iterations - i)) w
  /\ (exists m : nat,
       fst (exec h (collide_loop Dyn Lat lattice i) w)
       = replicate m (Call (collideAndStream lattice))
       /\ (m <= Z.to_nat (iterations - i))%nat
       /\ (is_Some (snd (exec h (collide_loop Dyn Lat lattice i) w)) ->
           m = Z.to_nat (iterations - i)))
  /\ (iterations <= i <->
      exec h (collide_loop Dyn Lat lattice i) w = ([], Some (tt, w))).
Proof.
  destruct (exec_collide_loop_steps h lattice _ i w eq_refl) as [Hres Htrace].
  split; [exact Hres|]. split; [exact Htrace|].
  rewrite collide_loop_turn. split.
  - intros Hi. by replace (i <? iterations) with false by (symmetry; apply Z.ltb_ge; lia).
  - destruct (Z.ltb_spec i iterations) as [Hlt|Hge]; [|done].
    cbn [exec]. destruct (h unit (collideAndStream lattice) w) as [[[] w']|]; [|done].
    by destruct (exec h (collide_loop Dyn Lat lattice (i + 1)) w').
Qed.

(** X7: a run of [main] completes exactly when every call returns, and
    then the handles and states are threaded as the source has them: the
    lattice is built from the dynamics object the library returned, the
    lattice that is warmed up and stepped is the one the constructor
    returned, each call starts in the state the previous one left, the
    final state is the one after the 100th step, and the exit code is 0. *)
Theorem completed_run_threads_state {Dyn Lat W : Type}
    (h : handler (plbE Dyn Lat) W) (argc : Z) (argv : list string) (w : W)
    (t : list (call (plbE Dyn Lat))) (code : Z) (w' : W) :
  exec h (main Dyn Lat argc argv) w = (t, Some (code, w'))
  <-> code = 0
      /\ exists args w0 dynamics w1 lattice w2 w3,
          h _ (plbInit argc argv) w = Some (args, w0)
          /\ h _ (AcceleratedBGKdynamics 1.0%float) w0 = Some (dynamics, w1)
          /\ h _ (MultiBlockLattice3D 100 100 100 dynamics) w1 = Some (lattice, w2)
          /\ h _ (initialize lattice) w2 = Some (tt, w3)
          /\ collide_steps h lattice 100 w3 = Some w'
          /\ t = Call (plbInit argc argv) :: expected_calls Dyn Lat dynamics lattice.
Proof.
  unfold main, simulate, mbind, prog_bind. cbn [bind trigger exec]. split.
  - destruct (h _ (plbInit argc argv) w) as [[args w0]|]; [|done]. cbn [bind exec].
    destruct (h _ (AcceleratedBGKdynamics omega) w0) as [[d w1]|] eqn:Hd; [|done].
    cbn [bind exec].
    destruct (h _ (MultiBlockLattice3D nx ny nz d) w1) as [[lat w2]|] eqn:Hl; [|done].
    cbn [bind exec].
    destruct (h _ (initialize lat) w2) as [[[] w3]|] eqn:Hi; [|done].
    cbn [bind]. rewrite exec_bind.
    destruct (exec_collide_loop_steps h lat 100 0 w3 eq_refl)
      as (Hres & m & Ht & Hm & Hsome).
    destruct (exec h (collide_loop Dyn Lat lat 0) w3) as [t0 [[[] w4]|]];
      cbn [fst snd exec] in *; [|done].
    intros [= <- <- <-]. split; [done|].
    exists args, w0, d, w1, lat, w2, w3. repeat split; try done.
    + destruct (collide_steps h lat 100 w3); [|done]. by injection Hres as ->.
    + rewrite Ht, (Hsome ltac:(eauto)), app_nil_r. reflexivity.
  - intros [-> (args & w0 & d & w1 & lat & w2 & w3 & H0 & Hd & Hl & Hi & Hs & ->)].
    rewrite H0. cbn [bind exec]. unfold omega. rewrite Hd. cbn [bind exec].
    unfold nx, ny, nz. rewrite Hl. cbn [bind exec]. rewrite Hi.
    cbn [bind]. rewrite exec_bind.
    destruct (exec_collide_loop_steps h lat 100 0 w3 eq_refl)
      as (Hres & m & Ht & Hm & Hsome).
    rewrite Hs in Hres.
    destruct (exec h (collide_loop Dyn Lat lat 0) w3) as [t0 res];
      cbn [fst snd] in *. subst res. cbn [fmap option_fmap option_map exec].
    rewrite Ht, (Hsome ltac:(eauto)), app_nil_r. reflexivity.
Qed.

Lemma completed_run_threads_state_witness :
  exec bookkeeping_library (main N N 1 ["palabos_minimal"]%string) (MkBook 4 [] [])
  = (Call (plbInit 1 ["palabos_minimal"]%string) :: expected_calls N N 4%N 5%N,
     Some (0, MkBook 6 [5%N] (replicate 100 5%N))).
Proof.
  apply (completed_run_threads_state bookkeeping_library).
  split; [reflexivity|].
  exists (1, ["palabos_minimal"]%string), (MkBook 4 [] []), 4%N, (MkBook 5 [] []),
    5%N, (MkBook 6 [] []), (MkBook 6 [5%N] []).
  repeat split.
Defined.

End PalabosMinimalMore.

(** * test-project/main.cpp: further properties *)

Module DependencyTestMore.
Import Interaction InteractionFacts DependencyTest DependencyTestSpec.

Example lines_values :
  lines ("a" +:+ newline +:+ newline +:+ "bc")
  = (["a"; ""], "bc")%string
  /\ lines "" = ([], ""%string).
Proof. split; reflexivity. Qed.

(** X8: in every environment the run ends with standard output made of
    exactly the seven confirmation strings, one per line and nothing after
    the last newline, flushed once per line; the standard input it was
    given is still unread and the environment is unchanged. *)
Theorem output_is_flushed_lines (e : environment) :
  exists p : process,
    snd (exec os main (start e)) = Some (0, p)
    /\ lines (stdout p) = (confirmation_strings, ""%string)
    /\ flushes p = length confirmation_strings
    /\ unread p = stdin e
    /\ env p = e.
Proof.
  exists (MkProcess e (stdin e) static_text 7).
  rewrite exec_main. repeat split.
Qed.

End DependencyTestMore.
